(** * ml-spectra-fitting: parameter-space encoding and fit orchestration

    A shallow embedding of [src/index.js] (both revisions of [optimize] and
    of [getValue] that the file holds) and of [src/shapes/*.js].

    JavaScript numbers are IEEE-754 binary64 values: they are modelled by
    Rocq's primitive [float], whose operations are the same binary64
    operations.  Peak objects live in a store, so that aliasing between the
    caller's peaks and the returned ones can be stated. *)

From Stdlib Require Import Floats ZArith QArith Qround.
From Stdlib Require Qcanon.
From Equations Require Import Equations.
From stdpp Require Import base option list gmap strings.

Set Warnings "-inexact-float".

Local Open Scope Z_scope.

(** * The program *)

(** ** JavaScript values *)

(** The body of a one-argument arrow function of a peak, such as
    [peak => peak.x + peak.width * 0.1]. *)
Inductive lambda : Type :=
| LNum (n : float)
| LField (key : string)
| LAdd (a b : lambda)
| LSub (a b : lambda)
| LMul (a b : lambda)
| LDiv (a b : lambda).

(** The values a peak field or an option holds here: [undefined], [null],
    a number, or a function of the peak. *)
Inductive value : Type :=
| Undefined
| Null
| Num (n : float)
| Func (body : lambda).

(** A JavaScript object used as a record of named fields. *)
Abbreviation obj := (gmap string value).

(** [o.key]: a missing property reads as [undefined]. *)
Definition get (o : obj) (key : string) : value :=
  default Undefined (o !! key).

Definition nan : float := PrimFloat.div 0%float 0%float.

(** ToNumber. *)
Definition to_number (v : value) : float :=
  match v with
  | Undefined => nan
  | Null => 0%float
  | Num n => n
  | Func _ => nan
  end.

(** ToBoolean. *)
Definition truthy (v : value) : bool :=
  match v with
  | Undefined | Null => false
  | Num n => negb (PrimFloat.eqb n 0%float || PrimFloat.is_nan n)
  | Func _ => true
  end.

(** [a || b]. *)
Definition js_or (a b : value) : value := if truthy a then a else b.

(** [v !== undefined]. *)
Definition is_defined (v : value) : bool :=
  match v with Undefined => false | _ => true end.

(** The arithmetic operators.  [-], [*] and [/] convert both operands with
    ToNumber.  [+] does the same on [undefined], [null] and numbers; on a
    function operand JavaScript concatenates strings instead, and the text it
    builds converts to NaN wherever this program stores it (every result of
    [getValue] is written to a [Float64Array]), which is the number given
    here. *)
Definition js_sub (a b : value) : value := Num (to_number a - to_number b)%float.
Definition js_mul (a b : value) : value := Num (to_number a * to_number b)%float.
Definition js_div (a b : value) : value := Num (to_number a / to_number b)%float.
Definition js_add (a b : value) : value := Num (to_number a + to_number b)%float.

(** Calling a function value on a peak object. *)
Fixpoint eval_lambda (body : lambda) (peak : obj) : value :=
  match body with
  | LNum n => Num n
  | LField key => get peak key
  | LAdd a b => js_add (eval_lambda a peak) (eval_lambda b peak)
  | LSub a b => js_sub (eval_lambda a peak) (eval_lambda b peak)
  | LMul a b => js_mul (eval_lambda a peak) (eval_lambda b peak)
  | LDiv a b => js_div (eval_lambda a peak) (eval_lambda b peak)
  end.

(** ** Arrays *)

(** A [Float64Array] has a fixed length and holds numbers; a plain [Array]
    holds any value and grows when written past its end. *)
Inductive jsarray : Type :=
| Float64Array (cells : list float)
| Array (cells : list value).

Definition array_length (a : jsarray) : nat :=
  match a with
  | Float64Array cells => length cells
  | Array cells => length cells
  end.

(** [a[i]]: out of range reads as [undefined]. *)
Definition array_get (a : jsarray) (i : nat) : value :=
  match a with
  | Float64Array cells => from_option Num Undefined (cells !! i)
  | Array cells => default Undefined (cells !! i)
  end.

(** [a[i] = v]: a typed array converts [v] to a number and ignores a write
    out of range; a plain array is extended, the skipped cells reading as
    [undefined]. *)
Definition array_set (a : jsarray) (i : nat) (v : value) : jsarray :=
  match a with
  | Float64Array cells => Float64Array (<[i := to_number v]> cells)
  | Array cells =>
      if decide (i < length cells)%nat then Array (<[i := v]> cells)
      else Array (cells ++ replicate (i - length cells) Undefined ++ [v])
  end.

(** [new Float64Array(n)]. *)
Definition new_Float64Array (n : nat) : list float := replicate n 0%float.

(** [l[i]] on an array of numbers. *)
Definition num_at (l : list float) (i : nat) : value :=
  from_option Num Undefined (l !! i).

(** ** Errors *)

Inductive outcome (A : Type) : Type :=
| Ok (a : A)
| Throw (msg : string).
Arguments Ok {A} a.
Arguments Throw {A} msg.

#[global] Instance outcome_ret : MRet outcome := fun _ a => Ok a.
#[global] Instance outcome_bind : MBind outcome := fun _ _ k m =>
  match m with
  | Ok a => k a
  | Throw msg => Throw msg
  end.

(** ** [getValue] (index.js, lines 98-168) *)

Definition STATE_INIT : Z := 0.
Definition STATE_MIN : Z := 1.
Definition STATE_MAX : Z := 2.
Definition STATE_GRADIENT_DIFFERENCE : Z := 3.

Definition X : Z := 0.
Definition Y : Z := 1.
Definition WIDTH : Z := 2.
Definition MU : Z := 3.

Definition keys : list string := ["x"; "y"; "width"; "mu"]%string.

(** [keys[s]] used as a property name. *)
Definition key_at (s : nat) : string := default "undefined"%string (keys !! s).

Definition not_supported {A} : outcome A :=
  Throw "The parameter is not supported".

Definition getValue (parameterIndex : Z) (peak : obj) (state : Z)
    (options : obj) : outcome value :=
  let maxY := get options "maxY" in
  if decide (state = STATE_INIT) then
    if decide (parameterIndex = X) then Ok (get peak "x")
    else if decide (parameterIndex = Y) then Ok (js_div (get peak "y") maxY)
    else if decide (parameterIndex = WIDTH) then Ok (get peak "width")
    else if decide (parameterIndex = MU) then
      Ok (js_or (get peak "mu") (Num 0.5))
    else not_supported
  else if decide (state = STATE_GRADIENT_DIFFERENCE) then
    if decide (parameterIndex = X) then
      Ok (if is_defined (get peak "xGradientDifference")
          then get peak "xGradientDifference"
          else if is_defined (get options "xGradientDifference")
          then get options "xGradientDifference"
          else js_div (get peak "width") (Num 2000))
    else if decide (parameterIndex = Y) then
      Ok (if is_defined (get peak "yGradientDifference")
          then get peak "yGradientDifference"
          else get options "yGradientDifference")
    else if decide (parameterIndex = WIDTH) then
      Ok (if is_defined (get peak "widthGradientDifference")
          then get peak "widthGradientDifference"
          else if is_defined (get options "widthGradientDifference")
          then get options "widthGradientDifference"
          else js_div (get peak "width") (Num 2000))
    else if decide (parameterIndex = MU) then
      Ok (if is_defined (get peak "muGradientDifference")
          then get peak "muGradientDifference"
          else get options "muGradientDifference")
    else not_supported
  else if decide (state = STATE_MIN) then
    if decide (parameterIndex = X) then
      Ok (js_sub (get peak "x") (js_mul (get peak "width") (get options "minFactorX")))
    else if decide (parameterIndex = Y) then
      Ok (js_mul (js_div (get peak "y") maxY) (get options "minFactorY"))
    else if decide (parameterIndex = WIDTH) then
      Ok (js_mul (get peak "width") (get options "minFactorWidth"))
    else if decide (parameterIndex = MU) then Ok (get options "minMuValue")
    else not_supported
  else if decide (state = STATE_MAX) then
    if decide (parameterIndex = X) then
      Ok (js_add (get peak "x") (js_mul (get peak "width") (get options "maxFactorX")))
    else if decide (parameterIndex = Y) then
      Ok (js_mul (js_div (get peak "y") maxY) (get options "maxFactorY"))
    else if decide (parameterIndex = WIDTH) then
      Ok (js_mul (get peak "width") (get options "maxFactorWidth"))
    else if decide (parameterIndex = MU) then Ok (get options "maxMuValue")
    else not_supported
  else Throw "the state is not supported".

(** ** The shape model library (shapes/*.js) *)

(** [p.length / 3] need not be an integer, and the loops compare and index
    with it.  For every length below 2^50 (more than a memory holds) the
    binary64 quotient by 3 or 4 and the sums and products the loops build
    from it agree with exact arithmetic on whether [i < nL] holds and on
    whether an index is an integer, so these numbers are modelled by [Q]. *)

Local Open Scope Q_scope.

(** The array index a number denotes, if it denotes one. *)
Definition array_index (q : Q) : option nat :=
  let r := Qred q in
  if decide (Qden r = 1%positive ∧ (0 <= Qnum r)%Z)
  then Some (Z.to_nat (Qnum r)) else None.

(** [p[q]]: a property name that is not an array index is not there. *)
Definition array_at (p : jsarray) (q : Q) : value :=
  from_option (array_get p) Undefined (array_index q).

Definition of_nat (i : nat) : Q := inject_Z (Z.of_nat i).

(** The number of [i = 0, 1, 2, ...] with [i < nL]. *)
Definition trips (nL : Q) : nat := Z.to_nat (Qceiling nL).

(** [for (let i = ...; i < nL; i++) result += term(i); return result]. *)
Equations sum_while (nL : Q) (term : nat → float) (i : nat) (result : float)
  : float by wf (trips nL - i)%nat lt :=
  sum_while nL term i result with Qlt_le_dec (of_nat i) nL := {
    | left _ => sum_while nL term (S i) (result + term i)%float
    | right _ => result }.
Next Obligation.
  intros nL _ i Hlt _ _. unfold trips, of_nat in *.
  pose proof (Qle_ceiling nL) as Hceil.
  assert (Hi : inject_Z (Z.of_nat i) < inject_Z (Qceiling nL))
    by (eapply Qlt_le_trans; eauto).
  rewrite <- Zlt_Qlt in Hi. lia.
Qed.

Record fit : Type := {
  parameterValues : jsarray;
  parameterError : value;
  iterations : value
}.

(** The object handed to the solver as its third argument. *)
Record optimizationOptions : Type := {
  tuning : obj;
  minValues : option (list float);
  maxValues : option (list float);
  initialValues : option (list float);
  gradientDifference : option (list float)
}.

(** One call [algorithm({ x, y }, paramsFunc, optimizationOptions)]. *)
Record solver_call : Type := {
  call_x : list float;
  call_y : list float;
  call_paramsFunc : jsarray → float → float;
  call_options : optimizationOptions
}.

(** The evaluators of [ml-peak-shape-generator], the maximum of
    [ml-array-max] and the solver of [ml-levenberg-marquardt] are other
    packages: the program is a function of them. *)
Class Collaborators : Type := {
  getKind : option string → outcome value;
  getMaxValue : list float → outcome float;
  gaussianFct : value → value → value → float → float;
  lorentzianFct : obj → float → float;
  pseudovoigtFct : obj → float → float;
  levenbergMarquardt : solver_call → outcome fit
}.

Section Shapes.
Context `{!Collaborators}.

Definition sumOfGaussians (p : jsarray) : float → float :=
  fun t =>
    let nL := of_nat (array_length p) / 3 in
    sum_while nL
      (fun i =>
         gaussianFct (array_at p (of_nat i)) (array_at p (of_nat i + nL))
           (array_at p (of_nat i + nL * 2)) t)
      0 0%float.

Definition sumOfGaussianLorentzians (p : jsarray) : float → float :=
  fun t =>
    let nL := of_nat (array_length p) / 4 in
    sum_while nL
      (fun i =>
         let func :=
           pseudovoigtFct
             {[ "x" := array_at p (of_nat i);
                "y" := array_at p (of_nat i + nL);
                "width" := array_at p (of_nat i + nL * 2);
                "mu" := array_at p (of_nat i + nL * 3) ]} in
         func t)
      0 0%float.

Definition sumOfLorentzians (p : jsarray) : float → float :=
  fun t =>
    let nL := of_nat (array_length p) / 3 in
    sum_while nL
      (fun i =>
         let func :=
           lorentzianFct
             {[ "x" := array_at p (of_nat i);
                "y" := array_at p (of_nat i + nL);
                "width" := array_at p (of_nat i + nL * 2) ]} in
         func t)
      0 0%float.

End Shapes.

Local Close Scope Q_scope.

(** ** The store and the effects of [optimize] *)

(** A reference to a peak object. *)
Abbreviation loc := nat (only parsing).

(** The objects that exist, and the calls made to the solver so far. *)
Record state : Type := {
  heap : gmap loc obj;
  solver_log : list solver_call
}.

(** A computation that reads and writes the store and may throw; what it
    wrote before it threw stays written. *)
Definition M (A : Type) : Type := state → outcome A * state.

#[global] Instance M_ret : MRet M := fun _ a st => (Ok a, st).
#[global] Instance M_bind : MBind M := fun _ _ k m st =>
  match m st with
  | (Ok a, st') => k a st'
  | (Throw msg, st') => (Throw msg, st')
  end.

Definition lift {A} (o : outcome A) : M A := fun st => (o, st).

(** A reference always denotes an object of the store; the lookup is made
    total with the empty object. *)
Definition read (l : loc) : M obj :=
  fun st => (Ok (default ∅ (heap st !! l)), st).

(** [l[key] = v]. *)
Definition write (l : loc) (key : string) (v : value) : M unit :=
  fun st =>
    (Ok (),
     {| heap := <[l := <[key := v]> (default ∅ (heap st !! l))]> (heap st);
        solver_log := solver_log st |}).

(** A new object. *)
Definition alloc (o : obj) : M loc :=
  fun st =>
    let l := fresh (dom (heap st)) in
    (Ok l, {| heap := <[l := o]> (heap st); solver_log := solver_log st |}).

(** [algorithm(...)]: the call is recorded.  The solver is a function of
    what it is given, which holds no reference to a peak.  It may return one
    of the vectors it was given as [parameterValues], and the decoding then
    writes into that vector; [optimize] reads none of the four again, so a
    copy stands for it. *)
Definition call (algorithm : solver_call → outcome fit) (c : solver_call)
  : M fit :=
  fun st =>
    (algorithm c, {| heap := heap st; solver_log := solver_log st ++ [c] |}).

(** [for (let i = start; i < start + count; i++) body], the variables the
    body assigns being threaded through. *)
Fixpoint for_loop {T} (body : nat → T → M T) (i count : nat) (s : T) : M T :=
  match count with
  | O => mret s
  | S count' => s' ← body i s; for_loop body (S i) count' s'
  end.

(** *** [JSON.parse(JSON.stringify(peaks))] *)

Definition is_finite (n : float) : bool :=
  negb (PrimFloat.is_nan n || PrimFloat.is_infinity n).

(** What JSON keeps of a property: [undefined] and functions are left out,
    NaN and the infinities are written [null], and [-0] is written [0]. *)
Definition json_value (v : value) : option value :=
  match v with
  | Undefined => None
  | Func _ => None
  | Null => Some Null
  | Num n =>
      Some (if is_finite n
            then Num (if PrimFloat.eqb n 0%float then 0%float else n)
            else Null)
  end.

(** The text of the array: one JSON object per peak. *)
Definition JSON_stringify (peaks : list loc) : M (list obj) :=
  mapM (fun l => o ← read l; mret (omap json_value o)) peaks.

(** Parsing builds new objects. *)
Definition JSON_parse (text : list obj) : M (list loc) := mapM alloc text.

(** ** Inputs and outputs of [optimize] *)

Record Data : Type := { data_x : list float; data_y : list float }.

(** [options.optimization]: its [kind], the solver's own [options], and its
    other properties ([minFactorX], [xGradientDifference], ...). *)
Record Optimization : Type := {
  kind : option string;
  settings : obj;
  options : obj
}.

(** [options]: [shape] is absent, or an object whose [kind] is absent or a
    string. *)
Record Options : Type := {
  shape : option (option string);
  optimization : option Optimization
}.

Record result : Type := {
  result_error : value;
  result_iterations : value;
  result_peaks : list loc
}.

(** [v === n]. *)
Definition number_is (v : value) (n : float) : bool :=
  match v with
  | Num m => PrimFloat.eqb m n
  | _ => false
  end.

(** The four vectors that [optimize] fills. *)
Record buffers : Type := {
  pInit : list float;
  pMin : list float;
  pMax : list float;
  pGradient : list float
}.

(** The options of [getValue] that the documentation of [optimize] gives a
    default. *)
Definition default_settings : obj :=
  {[ "minFactorWidth" := Num 0.25; "maxFactorWidth" := Num 4;
     "minFactorX" := Num 2; "maxFactorX" := Num 2;
     "minFactorY" := Num 0; "maxFactorY" := Num 1.5;
     "minMuValue" := Num 0; "maxMuValue" := Num 1;
     "yGradientDifference" := Num 1e-3; "muGradientDifference" := Num 0.01 ]}.

Definition default_optimization : Optimization :=
  {| kind := Some "lm"%string; settings := ∅; options := ∅ |}.

(** The result of [checkInput]. *)
Record checked : Type := {
  checked_y : list float;
  checked_x : list float;
  checked_maxY : float;
  checked_nbParams : nat;
  checked_paramsFunc : jsarray → float → float;
  checked_optimization : Optimization;
  checked_getValueOptions : obj
}.

(** ** [optimize] (index.js, lines 43-96) *)

Section Orchestrator.
Context `{!Collaborators}.

(** [switch (kind)] of the shape: the number of parameters of a peak and
    the model. *)
Definition select_shape (kind : value)
  : outcome (nat * (jsarray → float → float)) :=
  if number_is kind 1 then Ok (3%nat, sumOfGaussians)
  else if number_is kind 2 then Ok (3%nat, sumOfLorentzians)
  else if number_is kind 3 then Ok (4%nat, sumOfGaussianLorentzians)
  else Throw "kind of shape is not supported".

(** Modelled from the spec: [checkInput(data, options)] of [./checkInput],
    which is not among the sources.  It resolves the shape kind, divides
    [y] by [max(y)] and leaves [x] as it is, gives [nbParams] and the model
    of the shape, and builds the options of [getValue]: the properties of
    [options.optimization] over the documented defaults, with [maxY].  The
    steps are those the older [optimize] makes itself (lines 204-227). *)
Definition checkInput (data : Data) (options : Options) : outcome checked :=
  let shape := default (Some "gaussian"%string) (shape options) in
  let optimization := default default_optimization (optimization options) in
  kind ← getKind shape;
  let x := data_x data in
  maxY ← getMaxValue (data_y data);
  let y := (fun e => e / maxY)%float <$> data_y data in
  '(nbParams, paramsFunc) ← select_shape kind;
  mret {| checked_y := y; checked_x := x; checked_maxY := maxY;
          checked_nbParams := nbParams; checked_paramsFunc := paramsFunc;
          checked_optimization := optimization;
          checked_getValueOptions :=
            <["maxY" := Num maxY]> (settings optimization ∪ default_settings) |}.

Definition lm_defaults : obj :=
  {[ "damping" := Num 1.5; "maxIterations" := Num 100;
     "errorTolerance" := Num 1e-8 ]}.

(** Modelled from the spec: [selectMethod(optimization)] of
    [./selectMethod], which is not among the sources.  The method name,
    ["lm"] when absent, is resolved to the solver and a new configuration
    object, the solver's defaults under [optimization.options]; any other
    name is an error. *)
Definition selectMethod (optimization : Optimization)
  : outcome ((solver_call → outcome fit) * optimizationOptions) :=
  if decide (default "lm"%string (kind optimization) = "lm"%string) then
    Ok (levenbergMarquardt,
        {| tuning := options optimization ∪ lm_defaults;
           minValues := None; maxValues := None; initialValues := None;
           gradientDifference := None |})
  else Throw "Unknown kind algorithm".

(** The loop that writes the fitted values into the peaks (lines 87-93 and
    253-259); [pv] is [pFit.parameterValues]. *)
Definition decode (peaks : list loc) (nbParams : nat) (maxY : float)
    (pv : jsarray) : M jsarray :=
  let n := length peaks in
  for_loop
    (fun i pv =>
       let pv :=
         array_set pv (i + n) (js_mul (array_get pv (i + n)) (Num maxY)) in
       _ ← for_loop
             (fun s (_ : unit) =>
                write (default 0%nat (peaks !! i)) (key_at s)
                  (array_get pv (i + s * n)))
             0 nbParams ();
       mret pv)
    0 n pv.

(** The body of the inner loop of lines 61-74. *)
Definition fill (getValueOptions : obj) (nbShapes i : nat) (peak : obj)
    (s : nat) (b : buffers) : outcome buffers :=
  vInit ← getValue (Z.of_nat s) peak STATE_INIT getValueOptions;
  let b := {| pInit := <[(i + s * nbShapes)%nat := to_number vInit]> (pInit b);
              pMin := pMin b; pMax := pMax b; pGradient := pGradient b |} in
  vMin ← getValue (Z.of_nat s) peak STATE_MIN getValueOptions;
  let b := {| pInit := pInit b;
              pMin := <[(i + s * nbShapes)%nat := to_number vMin]> (pMin b);
              pMax := pMax b; pGradient := pGradient b |} in
  vMax ← getValue (Z.of_nat s) peak STATE_MAX getValueOptions;
  let b := {| pInit := pInit b; pMin := pMin b;
              pMax := <[(i + s * nbShapes)%nat := to_number vMax]> (pMax b);
              pGradient := pGradient b |} in
  vGradient ← getValue (Z.of_nat s) peak STATE_GRADIENT_DIFFERENCE
                getValueOptions;
  mret {| pInit := pInit b; pMin := pMin b; pMax := pMax b;
          pGradient :=
            <[(i + s * nbShapes)%nat := to_number vGradient]> (pGradient b) |}.

(** [optimize] (lines 43-96). *)
Definition optimize (data : Data) (peaks : list loc) (options : Options)
  : M result :=
  c ← lift (checkInput data options);
  let y := checked_y c in
  let x := checked_x c in
  let maxY := checked_maxY c in
  let nbParams := checked_nbParams c in
  let paramsFunc := checked_paramsFunc c in
  let optimization := checked_optimization c in
  let getValueOptions := checked_getValueOptions c in
  text ← JSON_stringify peaks;
  peaks ← JSON_parse text;
  let nbShapes := length peaks in
  let b := {| pMin := new_Float64Array (nbShapes * nbParams);
              pMax := new_Float64Array (nbShapes * nbParams);
              pInit := new_Float64Array (nbShapes * nbParams);
              pGradient := new_Float64Array (nbShapes * nbParams) |} in
  b ← for_loop
        (fun i b =>
           peak ← read (default 0%nat (peaks !! i));
           for_loop (fun s b => lift (fill getValueOptions nbShapes i peak s b))
             0 nbParams b)
        0 nbShapes b;
  '(algorithm, optimizationOptions) ← lift (selectMethod optimization);
  let optimizationOptions :=
    {| tuning := tuning optimizationOptions;
       minValues := Some (pMin b);
       maxValues := Some (pMax b);
       initialValues := Some (pInit b);
       gradientDifference := Some (pGradient b) |} in
  pFit ← call algorithm
           {| call_x := x; call_y := y; call_paramsFunc := paramsFunc;
              call_options := optimizationOptions |};
  let error := parameterError pFit in
  let iterations := iterations pFit in
  _ ← decode peaks nbParams maxY (parameterValues pFit);
  mret {| result_error := error; result_iterations := iterations;
          result_peaks := peaks |}.

End Orchestrator.

(** ** The older revision of [index.js] (lines 169-289) *)

Module Legacy.

(** [key === STATE_INIT ? a : key === STATE_MIN ? b : c]. *)
Definition by_key (key : Z) (a b c : value) : value :=
  if decide (key = STATE_INIT) then a
  else if decide (key = STATE_MIN) then b
  else c.

(** [getValue] (lines 263-289). *)
Definition getValue (parameterIndex : Z) (peak : obj) (key : Z)
    (dt : value) : value :=
  if decide (parameterIndex = 0) then
    by_key key (get peak "x") (js_sub (get peak "x") dt)
      (js_add (get peak "x") dt)
  else if decide (parameterIndex = 1) then
    by_key key (get peak "y") (Num 0) (Num 1.5)
  else if decide (parameterIndex = 2) then
    by_key key (get peak "width") (js_div (get peak "width") (Num 4))
      (js_mul (get peak "width") (Num 4))
  else by_key key (Num 0.5) (Num 0) (Num 1).

(** The three vectors: [pInit], [pMin], [pMax]. *)
Definition buffers : Type := list float * list float * list float.

(** The body of the inner loop of lines 234-241. *)
Definition fill (deltaX : value) (n i : nat) (peak : obj) (s : nat)
    (b : buffers) : buffers :=
  let '(pInit, pMin, pMax) := b in
  (<[(i + s * n)%nat :=
       to_number (getValue (Z.of_nat s) peak STATE_INIT deltaX)]> pInit,
   <[(i + s * n)%nat :=
       to_number (getValue (Z.of_nat s) peak STATE_MIN deltaX)]> pMin,
   <[(i + s * n)%nat :=
       to_number (getValue (Z.of_nat s) peak STATE_MAX deltaX)]> pMax).

Section Orchestrator.
Context `{!Collaborators}.

(** [optimize] (lines 194-261). *)
Definition optimize (data : Data) (peaks : list loc) (options : Options)
  : M result :=
  let shape := default (Some "gaussian"%string) (shape options) in
  let optimization :=
    default default_optimization (optimization options) in
  text ← JSON_stringify peaks;
  peaks ← JSON_parse text;
  kind ← lift (getKind shape);
  let x := data_x data in
  maxY ← lift (getMaxValue (data_y data));
  let y := (fun e => e / maxY)%float <$> data_y data in
  '(nbParams, paramsFunc) ← lift (select_shape kind);
  let n := length peaks in
  let b := (new_Float64Array (n * nbParams),
            new_Float64Array (n * nbParams),
            new_Float64Array (n * nbParams)) in
  let deltaX :=
    Num (PrimFloat.abs (to_number (js_sub (num_at x 0) (num_at x 1)))) in
  b ← for_loop
        (fun i b =>
           peak ← read (default 0%nat (peaks !! i));
           for_loop (fun s b => mret (fill deltaX n i peak s b))
             0 nbParams b)
        0 n b;
  let '(pInit, pMin, pMax) := b in
  '(algorithm, optimizationOptions) ← lift (selectMethod optimization);
  let optimizationOptions :=
    {| tuning := tuning optimizationOptions;
       minValues := Some pMin;
       maxValues := Some pMax;
       initialValues := Some pInit;
       gradientDifference := gradientDifference optimizationOptions |} in
  pFit ← call algorithm
           {| call_x := x; call_y := y; call_paramsFunc := paramsFunc;
              call_options := optimizationOptions |};
  let error := parameterError pFit in
  let iterations := iterations pFit in
  _ ← decode peaks nbParams maxY (parameterValues pFit);
  mret {| result_error := error; result_iterations := iterations;
          result_peaks := peaks |}.

End Orchestrator.

End Legacy.

(** ** The input builder of the test file *)

(** Modelled from the spec: one resolved quantity of
    [checkInput(data, peaks, options)], the input builder that the test file
    exercises and that is not among the sources.  It is a function of the
    peak: the per-peak field if the peak has it, else the option
    [optimization.parameters.<kind>.<quantity>], called on the peak when it is
    a function, else the built-in default formula. *)
Definition resolve (field : string) (override : value)
    (builtin : obj → value) : obj → value :=
  fun peak =>
    if is_defined (get peak field) then get peak field
    else match override with
         | Undefined => builtin peak
         | Func body => eval_lambda body peak
         | literal => literal
         end.

(** Modelled from the spec: [optimization.parameters.x.max] as [checkInput]
    returns it, one resolver for each peak; the built-in default is
    [x + width * 2]. *)
Definition parameters_x_max (peaks : list obj) (override : value)
  : list (obj → value) :=
  (fun _ =>
     resolve "xMax" override
       (fun peak => js_add (get peak "x") (js_mul (get peak "width") (Num 2))))
  <$> peaks.

(** * Notions for the statements *)

(** ** Copies, vectors and loops *)

Definition json_obj (o : obj) : obj := omap json_value o.

(** The object a reference denotes. *)
Definition deref (h : gmap loc obj) (l : loc) : obj := default ∅ (h !! l).

(** The peaks that [optimize] works on: the copies JSON makes. *)
Definition copies (st : state) (peaks : list loc) : list obj :=
  (fun l => json_obj (deref (heap st) l)) <$> peaks.

Definition states : list Z :=
  [STATE_INIT; STATE_MIN; STATE_MAX; STATE_GRADIENT_DIFFERENCE].

(** The vector that receives the values of a state. *)
Definition vector_of (state : Z) (b : buffers) : list float :=
  if decide (state = STATE_INIT) then pInit b
  else if decide (state = STATE_MIN) then pMin b
  else if decide (state = STATE_MAX) then pMax b
  else pGradient b.

(** The number a vector receives for parameter [s] of a peak. *)
Definition stored (gvo : obj) (state : Z) (peak : obj) (s : nat) : float :=
  match getValue (Z.of_nat s) peak state gvo with
  | Ok v => to_number v
  | Throw _ => nan
  end.

(** The rows [written] of the table of peaks and parameters are in the
    vectors, each at index [i + s * nbPeaks]. *)
Definition filled (gvo : obj) (objs : list obj) (nb : nat)
    (written : nat → nat → Prop) (b : buffers) : Prop :=
  ∀ state, state ∈ states →
    length (vector_of state b) = (length objs * nb)%nat
    ∧ ∀ i s peak, objs !! i = Some peak → (s < nb)%nat → written i s →
        vector_of state b !! (i + s * length objs)%nat
        = Some (stored gvo state peak s).

(** [pFit.parameterValues[i + n] *= maxY]. *)
Definition rescale (n : nat) (maxY : float) (pv : jsarray) (i : nat)
  : jsarray :=
  array_set pv (i + n) (js_mul (array_get pv (i + n)) (Num maxY)).

(** [pFit.parameterValues] after the first [k] turns of the loop. *)
Definition rescaled (n : nat) (maxY : float) (pv : jsarray) (k : nat)
  : jsarray :=
  fold_left (rescale n maxY) (seq 0 k) pv.

(** A loop whose body is a function of the loop variables. *)
Fixpoint iterate {T} (body : nat → T → T) (i count : nat) (s : T) : T :=
  match count with
  | O => s
  | S count' => iterate body (S i) count' (body i s)
  end.

(** A vector holds, for parameter [s] of peak [i], the number [getValue]
    gives in [state], at index [i + s * nbPeaks]. *)
Definition layout (gvo : obj) (objs : list obj) (nb : nat) (state : Z)
    (vector : option (list float)) : Prop :=
  ∃ cells,
    vector = Some cells
    ∧ length cells = (length objs * nb)%nat
    ∧ ∀ i s peak, objs !! i = Some peak → (s < nb)%nat →
        ∃ v, getValue (Z.of_nat s) peak state gvo = Ok v
             ∧ cells !! (i + s * length objs)%nat = Some (to_number v).

(** The four vectors of a call follow the layout. *)
Definition vectors_laid_out (gvo : obj) (objs : list obj) (nb : nat)
    (c0 : solver_call) : Prop :=
  layout gvo objs nb STATE_INIT (initialValues (call_options c0))
  ∧ layout gvo objs nb STATE_MIN (minValues (call_options c0))
  ∧ layout gvo objs nb STATE_MAX (maxValues (call_options c0))
  ∧ layout gvo objs nb STATE_GRADIENT_DIFFERENCE
      (gradientDifference (call_options c0)).

(** The fields of the peaks of a result hold the fitted values: field
    [keys[s]] of peak [i] is [pv[i + s * n]], times [maxY] for the height. *)
Definition decoded (n nb : nat) (maxY : float) (pv : jsarray)
    (run : outcome result * state) : Prop :=
  ∃ r, run.1 = Ok r
       ∧ length (result_peaks r) = n
       ∧ ∀ i l s, result_peaks r !! i = Some l → (s < nb)%nat →
           get (deref (heap run.2) l) (key_at s)
           = if decide (s = 1%nat)
             then Num (to_number (array_get pv (i + n)%nat) * maxY)%float
             else array_get pv (i + s * n)%nat.


(** The number that a field of the caller's peak is once JSON has copied
    the peak and a [Float64Array] has stored the field: a finite number is
    itself ([-0] is 0), NaN, the infinities and [null] are 0, and a field that
    is absent, [undefined] or a function is NaN. *)
Definition through_copy (v : value) : float :=
  match v with
  | Num n =>
      if is_finite n then (if PrimFloat.eqb n 0%float then 0%float else n)
      else 0%float
  | Null => 0%float
  | Undefined | Func _ => nan
  end.

(** The initial mixing fraction of a peak whose [mu] is [v]: [v] when it
    is a finite number other than 0, and 0.5 otherwise. *)
Definition initial_mu (v : value) : float :=
  match v with
  | Num n => if is_finite n && negb (PrimFloat.eqb n 0%float) then n
             else 0.5%float
  | _ => 0.5%float
  end.


(** Nothing that existed before the run has changed, and the peaks of the
    result are objects that did not exist. *)
Definition keeps (st : state) (run : outcome result * state) : Prop :=
  (∀ l, l ∈ dom (heap st) → heap run.2 !! l = heap st !! l)
  ∧ (∀ r l, run.1 = Ok r → l ∈ result_peaks r → l ∉ dom (heap st)).




(** The property that holds the gradient step of each parameter kind, on a
    peak and in the options. *)
Definition gradient_keys : list string :=
  ["xGradientDifference"; "yGradientDifference"; "widthGradientDifference";
   "muGradientDifference"]%string.

(** What [getValue] falls back on when neither the peak nor the options
    hold a gradient step: [peak.width / 2e3] for the position and the width,
    nothing for the height and the mixing fraction. *)
Definition builtin_step (s : nat) (peak : obj) : value :=
  if decide (s = 0%nat ∨ s = 2%nat) then js_div (get peak "width") (Num 2000)
  else Undefined.

(** The same once [checkInput] has put the documented defaults in the
    options. *)
Definition default_step (s : nat) (peak : obj) : value :=
  match s with
  | 1%nat => Num 1e-3
  | 3%nat => Num 0.01
  | _ => js_div (get peak "width") (Num 2000)
  end.

(** The sum of [term 0], ..., [term (n - 1)], added in this order to 0. *)
Definition sum_over (n : nat) (term : nat → float) : float :=
  fold_left (fun acc i => acc + term i)%float (seq 0 n) 0%float.

Ltac index_cases s :=
  match goal with
  | H : (s < 4)%nat |- _ =>
      destruct s as [|[|[|[|s]]]]; [| | | | exfalso; lia]
  end.

(** ** Runs *)

(** The call that [optimize] makes. *)
Definition the_call (c : checked) (oo : optimizationOptions) (b : buffers)
  : solver_call :=
  {| call_x := checked_x c; call_y := checked_y c;
     call_paramsFunc := checked_paramsFunc c;
     call_options :=
       {| tuning := tuning oo;
          minValues := Some (pMin b);
          maxValues := Some (pMax b);
          initialValues := Some (pInit b);
          gradientDifference := Some (pGradient b) |} |}.

Definition called (st : state) (c0 : solver_call) : state :=
  {| heap := heap st; solver_log := solver_log st ++ [c0] |}.

(** A run that returns has worked on copies: its result has one peak for
    each peak given, all of them distinct objects; in the store [st1] in which
    the fitted values are written, whatever is not a peak of the result is as
    it was when the run began and the peaks of the result hold the JSON copies
    of the peaks given, in their order; and the run ends in the store that the
    decoding loop makes of [st1]. *)
Definition works_on_copies (st : state) (peaks : list loc)
    (run : outcome result * state) : Prop :=
  ∀ r, run.1 = Ok r →
    length (result_peaks r) = length peaks
    ∧ NoDup (result_peaks r)
    ∧ ∃ st1 c0 nb maxY pFit pv',
        (∀ l, l ∉ result_peaks r → heap st1 !! l = heap st !! l)
        ∧ (∀ i l, result_peaks r !! i = Some l →
             heap st1 !! l = copies st peaks !! i)
        ∧ decode (result_peaks r) nb maxY (parameterValues pFit)
            (called st1 c0)
          = (Ok pv', run.2).

Section Runs.
Context `{!Collaborators}.

(** The shape kinds that [optimize] accepts: those the shape generator
    maps to 1, 2 or 3. *)
Definition recognized (shape : option string) : Prop :=
  ∃ kind, getKind shape = Ok kind
          ∧ (number_is kind 1 || number_is kind 2 || number_is kind 3) = true.

End Runs.

(** The same for the older [optimize]. *)

Module LegacyRun.
Import Legacy.

(** The vectors after the two loops of lines 234-241. *)
Definition fill_vectors (deltaX : value) (objs : list obj) (nb : nat)
    (b : buffers) : buffers :=
  iterate
    (fun i b =>
       iterate (fun s b => fill deltaX (length objs) i (default ∅ (objs !! i)) s b)
         0 nb b)
    0 (length objs) b.

Definition delta (x : list float) : value :=
  Num (PrimFloat.abs (to_number (js_sub (num_at x 0) (num_at x 1)))).

(** The call that the older [optimize] makes. *)
Definition the_call (data : Data) (maxY : float)
    (paramsFunc : jsarray → float → float) (oo : optimizationOptions)
    (b : buffers) : solver_call :=
  {| call_x := data_x data;
     call_y := (fun e => e / maxY)%float <$> data_y data;
     call_paramsFunc := paramsFunc;
     call_options :=
       {| tuning := tuning oo;
          minValues := Some (b.1.2);
          maxValues := Some (b.2);
          initialValues := Some (b.1.1);
          gradientDifference := gradientDifference oo |} |}.

Section Runs.
Context `{!Collaborators}.

(** What remains to do once the shape is known. *)
Definition fit_and_decode (data : Data) (options : Options)
    (objs : list obj) (ls : list loc) (st1 : state) (maxY : float)
    (nb : nat) (paramsFunc : jsarray → float → float)
  : outcome result * state :=
  let n := length ls in
  let b :=
    fill_vectors (delta (data_x data)) objs nb
      (new_Float64Array (n * nb), new_Float64Array (n * nb),
       new_Float64Array (n * nb)) in
  match selectMethod (default default_optimization (optimization options))
  with
  | Throw msg => (Throw msg, st1)
  | Ok (algorithm, oo) =>
      let c0 := the_call data maxY paramsFunc oo b in
      match algorithm c0 with
      | Throw msg => (Throw msg, called st1 c0)
      | Ok pFit =>
          match decode ls nb maxY (parameterValues pFit) (called st1 c0)
          with
          | (Ok _, st3) =>
              (Ok {| result_error := parameterError pFit;
                     result_iterations := iterations pFit;
                     result_peaks := ls |}, st3)
          | (Throw msg, st3) => (Throw msg, st3)
          end
      end
  end.

End Runs.

End LegacyRun.

(** ** Stand-ins for the other packages, and inputs to run the program on *)

(** [getKind] of the shape generator on the three names. *)
Definition getKind_names (kind : option string) : outcome value :=
  match kind with
  | None => Ok Undefined
  | Some k =>
      if decide (k = "gaussian"%string) then Ok (Num 1)
      else if decide (k = "lorentzian"%string) then Ok (Num 2)
      else if decide (k = "pseudovoigt"%string) then Ok (Num 3)
      else Throw "Unknown kind"
  end.

(** The largest element of a non-empty array. *)
Definition max_of (l : list float) : outcome float :=
  match l with
  | [] => Throw "input must not be empty"
  | e :: l => Ok (fold_left (fun m e => if PrimFloat.ltb m e then e else m) l e)
  end.

(** A solver that returns its initial values unchanged. *)
Definition identity_solver (c : solver_call) : outcome fit :=
  Ok {| parameterValues :=
          from_option Float64Array (Array []) (initialValues (call_options c));
        parameterError := Num 0;
        iterations := Num 0 |}.

Definition identity_world : Collaborators :=
  {| getKind := getKind_names;
     getMaxValue := max_of;
     gaussianFct := fun x y width t => 0%float;
     lorentzianFct := fun shape t => 0%float;
     pseudovoigtFct := fun shape t => 0%float;
     levenbergMarquardt := identity_solver |}.

(** Evaluators that return the height they are given, to run the models. *)
Definition height_world : Collaborators :=
  {| getKind := getKind_names;
     getMaxValue := max_of;
     gaussianFct := fun x y width t => to_number y;
     lorentzianFct := fun shape t => to_number (get shape "y");
     pseudovoigtFct := fun shape t => to_number (get shape "y");
     levenbergMarquardt := identity_solver |}.

(** The peak of the test file, [{ x: 0, y: 1, width: 2 }]. *)
Definition test_peak : obj :=
  {[ "x" := Num 0; "y" := Num 1; "width" := Num 2 ]}.

(** A store in which the caller holds that peak. *)
Definition test_state : state :=
  {| heap := {[ 5%nat := test_peak ]}; solver_log := [] |}.

(** The spectrum of the test file. *)
Definition test_data : Data :=
  {| data_x := [-1; 0; 1]%float; data_y := [1; 2; 1]%float |}.

(** A spectrum whose largest ordinate is 49. *)
Definition data49 : Data :=
  {| data_x := [-1; 0; 1]%float; data_y := [1; 49; 1]%float |}.

Definition no_options : Options := {| shape := None; optimization := None |}.

Definition triangular : Options :=
  {| shape := Some (Some "triangular"%string); optimization := None |}.

Definition pseudovoigt : Options :=
  {| shape := Some (Some "pseudovoigt"%string); optimization := None |}.

(** A store whose peak has [mu: 0]. *)
Definition mu0_state : state :=
  {| heap := {[ 5%nat := <["mu" := Num 0]> test_peak ]}; solver_log := [] |}.

(** A spectrum with one abscissa and three ordinates, and a peak of width
    zero. *)
Definition ragged_data : Data :=
  {| data_x := [0]%float; data_y := [1; 2; 3]%float |}.


(** The option of the test, [(peak) => peak.x + peak.width * 0.1]. *)
Definition test_max : lambda :=
  LAdd (LField "x") (LMul (LField "width") (LNum 0.1)).

(** A step given as a function of the peak, [peak => peak.width / 100]. *)
Definition step_function : lambda := LDiv (LField "width") (LNum 100).

Definition step_option : Options :=
  {| shape := None;
     optimization :=
       Some {| kind := None;
               settings := {[ "xGradientDifference" := Func step_function ]};
               options := ∅ |} |}.

Definition step_state : state :=
  {| heap :=
       {[ 5%nat := <["xGradientDifference" := Func step_function]> test_peak ]};
     solver_log := [] |}.

(** ** Notions for the further properties *)

(** The three states of the older [getValue]. *)
Definition legacy_states : list Z := [STATE_INIT; STATE_MIN; STATE_MAX].

(** The vector of the older [optimize] that receives the values of a
    state. *)
Definition legacy_vector_of (state : Z) (b : Legacy.buffers) : list float :=
  if decide (state = STATE_INIT) then b.1.1
  else if decide (state = STATE_MIN) then b.1.2
  else b.2.

(** The rows [written] of the table of peaks and parameters are in the three
    vectors of the older [optimize], each at index [i + s * nbPeaks]. *)
Definition legacy_filled (deltaX : value) (objs : list obj) (nb : nat)
    (written : nat → nat → Prop) (b : Legacy.buffers) : Prop :=
  ∀ state, state ∈ legacy_states →
    length (legacy_vector_of state b) = (length objs * nb)%nat
    ∧ ∀ i s peak, objs !! i = Some peak → (s < nb)%nat → written i s →
        legacy_vector_of state b !! (i + s * length objs)%nat
        = Some (to_number (Legacy.getValue (Z.of_nat s) peak state deltaX)).

(** A vector of the older [optimize] holds, for parameter [s] of peak [i],
    the number the older [getValue] gives in [state], at index
    [i + s * nbPeaks]. *)
Definition legacy_layout (deltaX : value) (objs : list obj) (nb : nat)
    (state : Z) (vector : option (list float)) : Prop :=
  ∃ cells,
    vector = Some cells
    ∧ length cells = (length objs * nb)%nat
    ∧ ∀ i s peak, objs !! i = Some peak → (s < nb)%nat →
        cells !! (i + s * length objs)%nat
        = Some (to_number (Legacy.getValue (Z.of_nat s) peak state deltaX)).

(** What the older [optimize] makes of a peak when the solver returns its
    initial values: [x] and [width] as copied, the height as copied and
    multiplied by [maxY], and the mixing fraction 0.5. *)
Definition legacy_reproduces (nb : nat) (maxY : float) (input output : obj)
  : Prop :=
  get output "x" = Num (through_copy (get input "x"))
  ∧ get output "y" = Num (through_copy (get input "y") * maxY)%float
  ∧ get output "width" = Num (through_copy (get input "width"))
  ∧ (nb = 4%nat → get output "mu" = Num 0.5).

(** A property name that the decoding of [nb] parameters does not write. *)
Definition not_decoded (nb : nat) (key : string) : Prop :=
  ∀ s, (s < nb)%nat → key ≠ key_at s.


(** A store whose peak has an [id] besides, and one whose peak has
    [x: NaN]. *)
Definition tagged_state : state :=
  {| heap := {[ 5%nat := <["id" := Num 7]> test_peak ]}; solver_log := [] |}.

Definition nan_state : state :=
  {| heap := {[ 5%nat := <["x" := Num nan]> test_peak ]}; solver_log := [] |}.

(** A store whose peak has [mu: 0.25]. *)
Definition mixed_state : state :=
  {| heap := {[ 5%nat := <["mu" := Num 0.25]> test_peak ]};
     solver_log := [] |}.

(** A solver that returns no values at all. *)
Definition short_solver (c : solver_call) : outcome fit :=
  Ok {| parameterValues := Float64Array [];
        parameterError := Num 0;
        iterations := Num 0 |}.

Definition short_world : Collaborators :=
  {| getKind := getKind_names;
     getMaxValue := max_of;
     gaussianFct := fun x y width t => 0%float;
     lorentzianFct := fun shape t => 0%float;
     pseudovoigtFct := fun shape t => 0%float;
     levenbergMarquardt := short_solver |}.

(** A shape without a kind: [shape: {}]. *)
Definition kindless : Options := {| shape := Some None; optimization := None |}.


(** A spectrum without points. *)
Definition empty_spectrum : Data := {| data_x := []; data_y := [] |}.

(** * Properties *)

(** ** The monad and the loops *)

Lemma bind_ok {A B} (m : M A) (k : A → M B) st a st' :
  m st = (Ok a, st') → (m ≫= k) st = k a st'.
Proof. intros E. unfold mbind, M_bind. by rewrite E. Qed.

Lemma bind_throw {A B} (m : M A) (k : A → M B) st msg st' :
  m st = (Throw msg, st') → (m ≫= k) st = (Throw msg, st').
Proof. intros E. unfold mbind, M_bind. by rewrite E. Qed.

(** A loop whose body keeps an invariant and does not throw ends, and the
    invariant holds at the end. *)
Lemma for_loop_ok {T} (I : nat → T → state → Prop) (body : nat → T → M T)
    (i count : nat) (s : T) (st : state) :
  I i s st →
  (∀ j s st, (i ≤ j < i + count)%nat → I j s st →
     ∃ s' st', body j s st = (Ok s', st') ∧ I (S j) s' st') →
  ∃ s' st', for_loop body i count s st = (Ok s', st')
            ∧ I (i + count)%nat s' st'.
Proof.
  revert i s st. induction count as [|count IH]; intros i s st HI Hbody.
  - exists s, st. rewrite Nat.add_0_r. done.
  - destruct (Hbody i s st) as (s1 & st1 & E1 & HI1); [lia | done |].
    destruct (IH (S i) s1 st1) as (s2 & st2 & E2 & HI2); [done | |].
    { intros j s' st' Hj. apply Hbody. lia. }
    exists s2, st2. split.
    + simpl. by rewrite (bind_ok _ _ _ _ _ E1).
    + by replace (i + S count)%nat with (S i + count)%nat by lia.
Qed.

Lemma for_loop_pure {T} (body : nat → T → M T) (f : nat → T → T)
    (i count : nat) (s : T) (st : state) :
  (∀ j s, (i ≤ j < i + count)%nat → body j s st = (Ok (f j s), st)) →
  for_loop body i count s st = (Ok (iterate f i count s), st).
Proof.
  revert i s. induction count as [|count IH]; intros i s Hbody; [done|].
  cbn. erewrite bind_ok by (apply Hbody; lia).
  apply IH. intros j s' Hj. apply Hbody. lia.
Qed.

(** ** Copying the peaks *)

Lemma JSON_stringify_spec (peaks : list loc) (st : state) :
  JSON_stringify peaks st
  = (Ok ((fun l => json_obj (deref (heap st) l)) <$> peaks), st).
Proof.
  unfold JSON_stringify. induction peaks as [|l peaks IH]; [done|].
  cbn [mapM]. unfold mbind, M_bind, mret, M_ret, read in *. cbn.
  by rewrite IH.
Qed.

(** The copies are new, distinct objects holding the parsed text; nothing
    else changes. *)
Lemma JSON_parse_spec (text : list obj) (st : state) :
  ∃ ls st',
    JSON_parse text st = (Ok ls, st')
    ∧ length ls = length text
    ∧ NoDup ls
    ∧ (∀ l, l ∈ ls → l ∉ dom (heap st))
    ∧ solver_log st' = solver_log st
    ∧ (∀ l, l ∉ ls → heap st' !! l = heap st !! l)
    ∧ (∀ i l, ls !! i = Some l → heap st' !! l = text !! i).
Proof.
  unfold JSON_parse. revert st. induction text as [|o text IH]; intros st.
  - exists [], st. repeat split; try done; [constructor | set_solver].
  - set (l := fresh (dom (heap st))).
    set (st1 := {| heap := <[l := o]> (heap st); solver_log := solver_log st |}).
    destruct (IH st1) as (ls & st' & E & Hlen & Hnd & Hfresh & Hlog & Hframe & Hnew).
    assert (Hl : l ∉ dom (heap st)) by apply is_fresh.
    assert (Hl' : l ∉ ls).
    { intros Hin. apply Hfresh in Hin. apply Hin. subst st1. cbn.
      rewrite dom_insert_L. set_solver. }
    exists (l :: ls), st'. split; [|repeat split].
    + cbn [mapM]. unfold mbind, M_bind, mret, M_ret, alloc in *. cbn.
      fold l. fold st1. by rewrite E.
    + cbn. by rewrite Hlen.
    + by constructor.
    + intros l0 [->|Hin]%elem_of_cons; [done|].
      apply Hfresh in Hin. subst st1. cbn in Hin.
      rewrite dom_insert_L in Hin. set_solver.
    + by rewrite Hlog.
    + intros l0 Hl0. rewrite Hframe by set_solver. subst st1. cbn.
      apply lookup_insert_ne. set_solver.
    + intros [|i] l0 Hi; cbn in *.
      * injection Hi as <-. rewrite Hframe by done. subst st1. cbn.
        apply lookup_insert_eq.
      * by apply Hnew.
Qed.


Lemma to_number_copy (o : obj) (key : string) :
  to_number (get (json_obj o) key) = through_copy (get o key).
Proof.
  unfold get, json_obj. rewrite lookup_omap.
  destruct (o !! key) as [[| |n|body]|]; [done | done | | done | done].
  change (to_number
            (if is_finite n
             then Num (if PrimFloat.eqb n 0 then 0%float else n) else Null)
          = through_copy (Num n)).
  unfold through_copy. by destruct (is_finite n).
Qed.



(** ** Filling the vectors *)

Lemma index_lt (n nb i s : nat) :
  (i < n)%nat → (s < nb)%nat → (i + s * n < n * nb)%nat.
Proof. nia. Qed.

Lemma index_inj (n i s i' s' : nat) :
  (i < n)%nat → (i' < n)%nat → (i + s * n = i' + s' * n)%nat →
  i = i' ∧ s = s'.
Proof.
  intros Hi Hi' E.
  assert (s = s') as -> by nia. split; [lia | done].
Qed.

Lemma getValue_total (s : nat) (peak : obj) (state : Z) (gvo : obj) :
  (s < 4)%nat → state ∈ states →
  ∃ v, getValue (Z.of_nat s) peak state gvo = Ok v.
Proof.
  intros Hs Hst. unfold states in Hst.
  repeat (apply elem_of_cons in Hst as [-> | Hst]);
    [ | | | | by apply elem_of_nil in Hst ];
    index_cases s; unfold getValue; cbn; eauto.
Qed.

Lemma getValue_stored (s : nat) (peak : obj) (state : Z) (gvo : obj) v :
  getValue (Z.of_nat s) peak state gvo = Ok v →
  stored gvo state peak s = to_number v.
Proof. intros E. unfold stored. by rewrite E. Qed.

Lemma fill_spec (gvo : obj) (n i : nat) (peak : obj) (s : nat) (b : buffers) :
  (s < 4)%nat →
  ∃ b', fill gvo n i peak s b = Ok b'
        ∧ ∀ state, state ∈ states →
            vector_of state b'
            = <[(i + s * n)%nat := stored gvo state peak s]> (vector_of state b).
Proof.
  intros Hs. unfold fill.
  destruct (getValue_total s peak STATE_INIT gvo) as [v0 E0];
    [done | set_solver |].
  destruct (getValue_total s peak STATE_MIN gvo) as [v1 E1];
    [done | set_solver |].
  destruct (getValue_total s peak STATE_MAX gvo) as [v2 E2];
    [done | set_solver |].
  destruct (getValue_total s peak STATE_GRADIENT_DIFFERENCE gvo) as [v3 E3];
    [done | set_solver |].
  rewrite E0. cbn. rewrite E1. cbn. rewrite E2. cbn. rewrite E3. cbn.
  eexists. split; [done|].
  intros state Hst. unfold states in Hst.
  repeat (apply elem_of_cons in Hst as [-> | Hst]);
    [ | | | | by apply elem_of_nil in Hst ];
    unfold vector_of; cbn;
    erewrite getValue_stored by eassumption; done.
Qed.

Lemma filled_step (gvo : obj) (objs : list obj) (nb i s : nat) (peak : obj)
    (b b' : buffers) :
  objs !! i = Some peak → (s < nb)%nat →
  filled gvo objs nb (fun i' s' => i' < i ∨ i' = i ∧ s' < s)%nat b →
  (∀ state, state ∈ states →
     vector_of state b'
     = <[(i + s * length objs)%nat := stored gvo state peak s]>
         (vector_of state b)) →
  filled gvo objs nb (fun i' s' => i' < i ∨ i' = i ∧ s' < S s)%nat b'.
Proof.
  intros Hi Hs Hb Hb' state Hst.
  destruct (Hb state Hst) as [Hlen Hrows]. rewrite (Hb' state Hst).
  assert (Hin : (i < length objs)%nat) by (eapply lookup_lt_Some; eauto).
  split; [by rewrite length_insert|].
  intros i' s' peak' Hi' Hs' Hw.
  assert (Hin' : (i' < length objs)%nat) by (eapply lookup_lt_Some; eauto).
  destruct (decide (i' = i ∧ s' = s)) as [[-> ->]|Hne].
  - rewrite list_lookup_insert_eq; [congruence|].
    rewrite Hlen. by apply index_lt.
  - rewrite list_lookup_insert_ne.
    + apply Hrows; try done.
      destruct Hw as [Hw|[-> Hw]]; [by left|right].
      split; [done|]. destruct (decide (s' = s)) as [->|]; [|lia].
      exfalso. by apply Hne.
    + intros E. apply index_inj in E; [|done..]. apply Hne.
      destruct E as [-> ->]. done.
Qed.

Lemma fill_rows (gvo : obj) (objs : list obj) (nb i : nat) (peak : obj)
    (b : buffers) (st : state) :
  (nb ≤ 4)%nat → objs !! i = Some peak →
  filled gvo objs nb (fun i' _ => i' < i)%nat b →
  ∃ b', for_loop (fun s b => lift (fill gvo (length objs) i peak s b))
          0 nb b st = (Ok b', st)
        ∧ filled gvo objs nb (fun i' _ => i' < S i)%nat b'.
Proof.
  intros Hnb Hi Hb.
  destruct (for_loop_ok
    (fun s b st' =>
       st' = st
       ∧ filled gvo objs nb (fun i' s' => i' < i ∨ i' = i ∧ s' < s)%nat b)
    (fun s b => lift (fill gvo (length objs) i peak s b)) 0 nb b st)
    as (b' & st' & E & -> & Hb').
  - split; [done|]. intros state Hst. destruct (Hb state Hst) as [? Hrows].
    split; [done|]. intros i' s' peak' ? ? [?|[_ ?]]; [eauto | lia].
  - intros s b1 st1 Hs [-> Hb1].
    destruct (fill_spec gvo (length objs) i peak s b1) as (b2 & E2 & Hb2);
      [lia|].
    exists b2, st. unfold lift. rewrite E2. split; [done|]. split; [done|].
    eapply filled_step; eauto. lia.
  - exists b'. split; [done|].
    intros state Hst. destruct (Hb' state Hst) as [? Hrows].
    split; [done|]. intros i' s' peak' ? ? ?. apply Hrows; try done.
    destruct (decide (i' = i)); [right; split; [done | lia] | left; lia].
Qed.

Lemma fill_peaks (gvo : obj) (ls : list loc) (objs : list obj) (nb : nat)
    (b : buffers) (st : state) :
  (nb ≤ 4)%nat → length ls = length objs →
  (∀ i l, ls !! i = Some l → heap st !! l = objs !! i) →
  (∀ state, state ∈ states →
     length (vector_of state b) = (length objs * nb)%nat) →
  ∃ b', for_loop
          (fun i b =>
             peak ← read (default 0%nat (ls !! i));
             for_loop (fun s b => lift (fill gvo (length ls) i peak s b))
               0 nb b)
          0 (length ls) b st = (Ok b', st)
        ∧ filled gvo objs nb (fun _ _ => True) b'.
Proof.
  intros Hnb Hlen Hheap Hb.
  destruct (for_loop_ok
    (fun i b st' => st' = st ∧ filled gvo objs nb (fun i' _ => i' < i)%nat b)
    (fun i b =>
       peak ← read (default 0%nat (ls !! i));
       for_loop (fun s b => lift (fill gvo (length ls) i peak s b)) 0 nb b)
    0 (length ls) b st) as (b' & st' & E & -> & Hb').
  - split; [done|]. intros state Hst. split; [eauto|]. intros; lia.
  - intros i b1 st1 Hi [-> Hb1].
    destruct (lookup_lt_is_Some_2 ls i) as [l Hl]; [lia|].
    destruct (lookup_lt_is_Some_2 objs i) as [peak Hpeak]; [lia|].
    destruct (fill_rows gvo objs nb i peak b1 st) as (b2 & E2 & Hb2);
      try done.
    exists b2, st. split; [|done].
    erewrite bind_ok; [|reflexivity]. cbn.
    rewrite Hl. cbn. unfold deref. rewrite (Hheap i l Hl), Hpeak. cbn.
    by rewrite Hlen.
  - exists b'. split; [done|].
    intros state Hst. destruct (Hb' state Hst) as [? Hrows].
    split; [done|]. intros i s peak Hi ? _. apply Hrows; try done.
    apply lookup_lt_Some in Hi. lia.
Qed.

Lemma filled_layout (gvo : obj) (objs : list obj) (nb : nat) (b : buffers)
    (state : Z) :
  (nb ≤ 4)%nat → state ∈ states →
  filled gvo objs nb (fun _ _ => True) b →
  layout gvo objs nb state (Some (vector_of state b)).
Proof.
  intros Hnb Hst Hb. destruct (Hb state Hst) as [Hlen Hrows].
  exists (vector_of state b). split; [done|]. split; [done|].
  intros i s peak Hi Hs.
  destruct (getValue_total s peak state gvo) as [v Ev]; [lia | done |].
  exists v. split; [done|].
  rewrite (Hrows i s peak) by done. by rewrite (getValue_stored _ _ _ _ _ Ev).
Qed.

(** ** Decoding the fit *)

Lemma array_get_set_ne (a : jsarray) (k j : nat) (v : value) :
  j ≠ k → array_get (array_set a k v) j = array_get a j.
Proof.
  intros Hne. destruct a as [cells|cells]; cbn.
  - by rewrite list_lookup_insert_ne.
  - case_decide; cbn.
    + by rewrite list_lookup_insert_ne.
    + destruct (decide (j < length cells)%nat).
      * by rewrite lookup_app_l.
      * rewrite (lookup_ge_None_2 cells j) by lia.
        rewrite lookup_app_r by lia.
        destruct (decide (j - length cells < k - length cells)%nat).
        -- rewrite lookup_app_l by (rewrite length_replicate; lia).
           rewrite lookup_replicate_2 by lia. done.
        -- rewrite lookup_app_r by (rewrite length_replicate; lia).
           rewrite length_replicate.
           destruct (j - length cells - (k - length cells))%nat eqn:E;
             [lia | done].
Qed.

Lemma array_get_set_eq (a : jsarray) (k : nat) (n : float) :
  (k < array_length a)%nat → array_get (array_set a k (Num n)) k = Num n.
Proof.
  intros Hk. destruct a as [cells|cells]; cbn in *.
  - by rewrite list_lookup_insert_eq.
  - rewrite decide_True by done. cbn. by rewrite list_lookup_insert_eq.
Qed.

Lemma rescaled_S (n : nat) (maxY : float) (pv : jsarray) (k : nat) :
  rescaled n maxY pv (S k) = rescale n maxY (rescaled n maxY pv k) k.
Proof. unfold rescaled. by rewrite seq_S, fold_left_app. Qed.

Lemma rescaled_get_other (n : nat) (maxY : float) (pv : jsarray) (k j : nat) :
  (∀ i, (i < k)%nat → j ≠ (i + n)%nat) →
  array_get (rescaled n maxY pv k) j = array_get pv j.
Proof.
  induction k as [|k IH]; intros Hj; [done|].
  rewrite rescaled_S. unfold rescale.
  rewrite array_get_set_ne by (apply Hj; lia).
  apply IH. intros i Hi. apply Hj. lia.
Qed.

Lemma array_length_set (a : jsarray) (k : nat) (v : value) :
  (array_length a ≤ array_length (array_set a k v))%nat.
Proof.
  destruct a as [cells|cells]; cbn.
  - by rewrite length_insert.
  - case_decide; cbn.
    + by rewrite length_insert.
    + rewrite length_app. lia.
Qed.

Lemma rescaled_length (n : nat) (maxY : float) (pv : jsarray) (k : nat) :
  (array_length pv ≤ array_length (rescaled n maxY pv k))%nat.
Proof.
  induction k as [|k IH]; [done|].
  rewrite rescaled_S. unfold rescale.
  etrans; [apply IH | apply array_length_set].
Qed.

(** What the loop reads for parameter [s] of peak [i]: the fitted value at
    [i + s * n], times [maxY] for the heights. *)
Lemma rescaled_get (n : nat) (maxY : float) (pv : jsarray) (i s : nat) :
  (i < n)%nat → (i + n < array_length pv)%nat →
  array_get (rescaled n maxY pv (S i)) (i + s * n)%nat
  = if decide (s = 1%nat)
    then Num (to_number (array_get pv (i + n)%nat) * maxY)%float
    else array_get pv (i + s * n)%nat.
Proof.
  intros Hi Hlen. case_decide as Hs.
  - subst s. rewrite Nat.mul_1_l, rescaled_S. unfold rescale, js_mul.
    rewrite array_get_set_eq
      by (eapply Nat.lt_le_trans; [done | apply rescaled_length]).
    rewrite rescaled_get_other; [done|]. intros i' Hi'. lia.
  - apply rescaled_get_other. intros i' Hi' E.
    destruct (index_inj n i s i' 1) as [_ ?]; [lia..|done].
Qed.

Lemma key_at_inj (s s' : nat) :
  (s < 4)%nat → (s' < 4)%nat → key_at s = key_at s' → s = s'.
Proof. intros Hs Hs'. index_cases s; index_cases s'; done. Qed.

Lemma write_fields (l : loc) (i n nb : nat) (pv : jsarray) (st : state) :
  (nb ≤ 4)%nat →
  ∃ st',
    for_loop (fun s (_ : unit) => write l (key_at s) (array_get pv (i + s * n)))
      0 nb () st = (Ok (), st')
    ∧ solver_log st' = solver_log st
    ∧ (∀ l', l' ≠ l → heap st' !! l' = heap st !! l')
    ∧ (∀ s, (s < nb)%nat →
         get (deref (heap st') l) (key_at s) = array_get pv (i + s * n)).
Proof.
  intros Hnb.
  destruct (for_loop_ok
    (fun s (_ : unit) st' =>
       solver_log st' = solver_log st
       ∧ (∀ l', l' ≠ l → heap st' !! l' = heap st !! l')
       ∧ (∀ s', (s' < s)%nat →
            get (deref (heap st') l) (key_at s') = array_get pv (i + s' * n)))
    (fun s (_ : unit) => write l (key_at s) (array_get pv (i + s * n)))
    0 nb () st) as ([] & st' & E & Hlog & Hframe & Hget).
  - split; [done|]. split; [done|]. intros; lia.
  - intros s [] st1 Hs (Hlog & Hframe & Hget).
    eexists (), _. split; [reflexivity|]. cbn.
    split; [done|]. split.
    + intros l' Hl'. rewrite lookup_insert_ne by done. by apply Hframe.
    + intros s' Hs'. unfold deref, get. rewrite lookup_insert_eq. cbn.
      destruct (decide (s' = s)) as [->|Hne].
      * by rewrite lookup_insert_eq.
      * rewrite lookup_insert_ne
          by (intros E; apply key_at_inj in E; [done | lia | lia]).
        apply Hget. lia.
  - exists st'. done.
Qed.

(** The loop writes, into the object of each peak [i], what it reads at
    [i + s * n] once the height of that peak has been rescaled; it touches no
    other object and calls nothing. *)
Lemma decode_spec (ls : list loc) (nb : nat) (maxY : float) (pv : jsarray)
    (st : state) :
  NoDup ls → (nb ≤ 4)%nat →
  ∃ pv' st',
    decode ls nb maxY pv st = (Ok pv', st')
    ∧ solver_log st' = solver_log st
    ∧ (∀ l, l ∉ ls → heap st' !! l = heap st !! l)
    ∧ (∀ i l s, ls !! i = Some l → (s < nb)%nat →
         get (deref (heap st') l) (key_at s)
         = array_get (rescaled (length ls) maxY pv (S i)) (i + s * length ls)).
Proof.
  intros Hnd Hnb. unfold decode. set (n := length ls).
  destruct (for_loop_ok
    (fun i pv_i st_i =>
       pv_i = rescaled n maxY pv i
       ∧ solver_log st_i = solver_log st
       ∧ (∀ l, l ∉ ls → heap st_i !! l = heap st !! l)
       ∧ (∀ i' l s, (i' < i)%nat → ls !! i' = Some l → (s < nb)%nat →
            get (deref (heap st_i) l) (key_at s)
            = array_get (rescaled n maxY pv (S i')) (i' + s * n)))
    (fun i pv =>
       let pv :=
         array_set pv (i + n) (js_mul (array_get pv (i + n)) (Num maxY)) in
       _ ← for_loop
             (fun s (_ : unit) =>
                write (default 0%nat (ls !! i)) (key_at s)
                  (array_get pv (i + s * n)))
             0 nb ();
       mret pv)
    0 n pv st) as (pv' & st' & E & _ & Hlog & Hframe & Hget).
  - split; [done|]. split; [done|]. split; [done|]. intros; lia.
  - intros i pv_i st_i Hi (-> & Hlog & Hframe & Hget).
    destruct (lookup_lt_is_Some_2 ls i) as [l Hl]; [subst n; lia|].
    rewrite Hl. cbn [default].
    fold (rescale n maxY (rescaled n maxY pv i) i). rewrite <- rescaled_S.
    destruct (write_fields l i n nb (rescaled n maxY pv (S i)) st_i Hnb)
      as (st2 & E2 & Hlog2 & Hframe2 & Hget2).
    exists (rescaled n maxY pv (S i)), st2. split.
    { erewrite bind_ok by exact E2. done. }
    split; [done|]. split; [congruence|]. split.
    + intros l' Hl'. rewrite Hframe2; [by apply Hframe|].
      intros ->. apply Hl'. eapply list_elem_of_lookup_2. exact Hl.
    + intros i' l' s Hi' Hl' Hs.
      destruct (decide (i' = i)) as [->|Hne].
      * assert (l' = l) as -> by congruence. by apply Hget2.
      * assert (l' ≠ l).
        { intros ->. apply Hne. eapply NoDup_lookup; eauto. }
        unfold deref. rewrite Hframe2 by done. apply Hget; [lia | done..].
  - exists pv', st'. split; [done|]. split; [done|]. split; [done|].
    intros i l s Hl Hs. apply Hget; [|done..].
    apply lookup_lt_Some in Hl. done.
Qed.

Lemma decode_decoded (ls : list loc) (nb : nat) (maxY : float) (pFit : fit)
    (st : state) :
  NoDup ls → (2 ≤ nb ≤ 4)%nat →
  (length ls * nb ≤ array_length (parameterValues pFit))%nat →
  decoded (length ls) nb maxY (parameterValues pFit)
    match decode ls nb maxY (parameterValues pFit) st with
    | (Ok _, st3) =>
        (Ok {| result_error := parameterError pFit;
               result_iterations := iterations pFit;
               result_peaks := ls |}, st3)
    | (Throw msg, st3) => (Throw msg, st3)
    end.
Proof.
  intros Hnd Hnb Hlen.
  destruct (decode_spec ls nb maxY (parameterValues pFit) st)
    as (pv' & st3 & -> & _ & _ & Hget); [done | lia |].
  eexists. split; [done|]. split; [done|]. cbn.
  intros i l s Hl Hs. rewrite (Hget i l s Hl Hs).
  apply lookup_lt_Some in Hl. apply rescaled_get; [done | nia].
Qed.

(** ** A run of [optimize] *)

Section Run.
Context `{!Collaborators}.

Lemma select_shape_nbParams (kind : value) nb f :
  select_shape kind = Ok (nb, f) → nb = 3%nat ∨ nb = 4%nat.
Proof.
  unfold select_shape. intros E.
  repeat (destruct (number_is kind _); [naive_solver|]). done.
Qed.

Lemma checkInput_inv (data : Data) (options : Options) (c : checked) :
  checkInput data options = Ok c →
  ∃ kind,
    getKind (default (Some "gaussian"%string) (shape options)) = Ok kind
    ∧ getMaxValue (data_y data) = Ok (checked_maxY c)
    ∧ select_shape kind = Ok (checked_nbParams c, checked_paramsFunc c)
    ∧ checked_x c = data_x data
    ∧ checked_y c
      = (fun e => e / checked_maxY c)%float <$> data_y data
    ∧ checked_optimization c
      = default default_optimization (optimization options)
    ∧ checked_getValueOptions c
      = <["maxY" := Num (checked_maxY c)]>
          (settings (default default_optimization (optimization options))
           ∪ default_settings).
Proof.
  unfold checkInput. intros E.
  destruct (getKind _) as [kind|] eqn:Ek; [|done]. cbn in E.
  destruct (getMaxValue _) as [m|] eqn:Em; [|done]. cbn in E.
  destruct (select_shape kind) as [[nb f]|] eqn:Es; [|done]. cbn in E.
  injection E as <-. exists kind. cbn. done.
Qed.

Lemma default_method :
  selectMethod default_optimization
  = Ok (levenbergMarquardt,
        {| tuning := lm_defaults; minValues := None; maxValues := None;
           initialValues := None; gradientDifference := None |}).
Proof. reflexivity. Qed.

(** Once [checkInput] has returned, [optimize] copies the peaks, fills the
    vectors, and then either stops on the method, or calls the solver and
    decodes what it returns. *)
Lemma optimize_run (data : Data) (peaks : list loc) (options : Options)
    (st : state) (c : checked) :
  checkInput data options = Ok c →
  ∃ ls st1 b,
    length ls = length peaks
    ∧ NoDup ls
    ∧ (∀ l, l ∈ ls → l ∉ dom (heap st))
    ∧ solver_log st1 = solver_log st
    ∧ (∀ l, l ∉ ls → heap st1 !! l = heap st !! l)
    ∧ (∀ i l, ls !! i = Some l → heap st1 !! l = copies st peaks !! i)
    ∧ filled (checked_getValueOptions c) (copies st peaks)
        (checked_nbParams c) (fun _ _ => True) b
    ∧ optimize data peaks options st
      = match selectMethod (checked_optimization c) with
        | Throw msg => (Throw msg, st1)
        | Ok (algorithm, oo) =>
            let c0 := the_call c oo b in
            match algorithm c0 with
            | Throw msg => (Throw msg, called st1 c0)
            | Ok pFit =>
                match decode ls (checked_nbParams c) (checked_maxY c)
                        (parameterValues pFit) (called st1 c0) with
                | (Ok _, st3) =>
                    (Ok {| result_error := parameterError pFit;
                           result_iterations := iterations pFit;
                           result_peaks := ls |}, st3)
                | (Throw msg, st3) => (Throw msg, st3)
                end
            end
        end.
Proof.
  intros Hc.
  destruct (checkInput_inv _ _ _ Hc) as (kind & _ & _ & Hs & _).
  assert (Hnb : (checked_nbParams c ≤ 4)%nat)
    by (apply select_shape_nbParams in Hs; lia).
  destruct (JSON_parse_spec (copies st peaks) st)
    as (ls & st1 & Ep & Hlen & Hnd & Hfresh & Hlog & Hframe & Hnew).
  unfold copies in Hlen. rewrite length_fmap in Hlen.
  set (n := length ls). set (nb := checked_nbParams c).
  destruct (fill_peaks (checked_getValueOptions c) ls (copies st peaks) nb
    {| pInit := new_Float64Array (n * nb);
       pMin := new_Float64Array (n * nb);
       pMax := new_Float64Array (n * nb);
       pGradient := new_Float64Array (n * nb) |} st1) as (b & Eb & Hb);
    [done | by rewrite Hlen; unfold copies; rewrite length_fmap | done | |].
  { intros state Hst. unfold copies. rewrite length_fmap, <- Hlen.
    unfold vector_of. repeat case_decide; cbn;
      apply length_replicate. }
  exists ls, st1, b. repeat (split; [done|]).
  unfold optimize.
  erewrite bind_ok by (unfold lift; rewrite Hc; reflexivity).
  erewrite bind_ok by apply JSON_stringify_spec.
  erewrite bind_ok by exact Ep.
  erewrite bind_ok by exact Eb.
  unfold lift at 1.
  destruct (selectMethod (checked_optimization c)) as [[algorithm oo]|msg];
    [|done].
  erewrite bind_ok by reflexivity.
  unfold mbind at 1, M_bind at 1, call at 1. fold (the_call c oo b).
  fold (called st1 (the_call c oo b)).
  destruct (algorithm (the_call c oo b)) as [pFit|msg]; [|done].
  unfold mbind at 1, M_bind at 1.
  destruct (decode _ _ _ _ _) as [[pv'|msg] st3]; done.
Qed.

(** A run in which [checkInput] and [selectMethod] return makes exactly one
    call to the solver, with vectors that follow the layout; it throws only
    if the solver does, and otherwise decodes what the solver returns. *)
Lemma optimize_calls (data : Data) (peaks : list loc) (options : Options)
    (st : state) (c : checked) algorithm oo :
  checkInput data options = Ok c →
  selectMethod (checked_optimization c) = Ok (algorithm, oo) →
  ∃ c0,
    solver_log (optimize data peaks options st).2 = solver_log st ++ [c0]
    ∧ vectors_laid_out (checked_getValueOptions c) (copies st peaks)
        (checked_nbParams c) c0
    ∧ call_x c0 = data_x data
    ∧ call_y c0 = (fun e => e / checked_maxY c)%float <$> data_y data
    ∧ (∀ msg, algorithm c0 = Throw msg →
         (optimize data peaks options st).1 = Throw msg)
    ∧ (∀ pFit, algorithm c0 = Ok pFit →
         ∃ r, (optimize data peaks options st).1 = Ok r)
    ∧ (∀ pFit, algorithm c0 = Ok pFit →
         (length peaks * checked_nbParams c
          ≤ array_length (parameterValues pFit))%nat →
         decoded (length peaks) (checked_nbParams c) (checked_maxY c)
           (parameterValues pFit) (optimize data peaks options st)).
Proof.
  intros Hc Hm.
  destruct (optimize_run data peaks options st c Hc)
    as (ls & st1 & b & Hlen & Hnd & _ & Hlog & _ & _ & Hb & ->).
  destruct (checkInput_inv _ _ _ Hc) as (kind & _ & _ & Hs & Hx & Hy & _).
  apply select_shape_nbParams in Hs.
  rewrite Hm. cbn zeta. exists (the_call c oo b).
  assert (Hlay : vectors_laid_out (checked_getValueOptions c)
                   (copies st peaks) (checked_nbParams c) (the_call c oo b)).
  { repeat split;
      [ apply (filled_layout _ _ _ b STATE_INIT)
      | apply (filled_layout _ _ _ b STATE_MIN)
      | apply (filled_layout _ _ _ b STATE_MAX)
      | apply (filled_layout _ _ _ b STATE_GRADIENT_DIFFERENCE) ];
      try done; try lia; unfold states;
      repeat first [apply list_elem_of_here | apply list_elem_of_further]. }
  destruct (algorithm (the_call c oo b)) as [pFit|msg] eqn:Ea.
  - destruct (decode_spec ls (checked_nbParams c) (checked_maxY c)
      (parameterValues pFit) (called st1 (the_call c oo b)))
      as (pv' & st3 & Ed & Hlog3 & _); [done | lia |].
    split; [rewrite Ed; cbn; by rewrite Hlog3, <- Hlog|].
    split; [done|]. split; [done|]. split; [done|].
    split; [done|]. split.
    + intros pFit' _. rewrite Ed. eauto.
    + intros pFit' [= <-] Hpv. rewrite <- Hlen in *.
      apply decode_decoded; [done | lia | done].
  - cbn. split; [by rewrite Hlog|].
    split; [done|]. split; [done|]. split; [done|].
    split; [by intros msg' [= <-]|]. split; intros; done.
Qed.


End Run.

(** ** A run of the older [optimize] *)

Section LegacyRun.
Context `{!Collaborators}.
Import Legacy LegacyRun.

Lemma legacy_fill_peaks (deltaX : value) (ls : list loc) (objs : list obj)
    (nb : nat) (b : buffers) (st : state) :
  length ls = length objs →
  (∀ i l, ls !! i = Some l → heap st !! l = objs !! i) →
  for_loop
    (fun i b =>
       peak ← read (default 0%nat (ls !! i));
       for_loop (fun s b => mret (fill deltaX (length ls) i peak s b)) 0 nb b)
    0 (length ls) b st
  = (Ok (fill_vectors deltaX objs nb b), st).
Proof.
  intros Hlen Hheap. unfold fill_vectors. rewrite <- Hlen.
  apply for_loop_pure. intros i b' Hi.
  destruct (lookup_lt_is_Some_2 ls i) as [l Hl]; [lia|].
  erewrite bind_ok by reflexivity. cbn. rewrite Hl. cbn.
  unfold deref. rewrite (Hheap i l Hl).
  by apply for_loop_pure.
Qed.

(** The older [optimize] copies the peaks first, then resolves the
    shape, fills the vectors, calls the solver and decodes. *)
Lemma legacy_optimize_run (data : Data) (peaks : list loc)
    (options : Options) (st : state) :
  ∃ ls st1,
    length ls = length peaks
    ∧ NoDup ls
    ∧ (∀ l, l ∈ ls → l ∉ dom (heap st))
    ∧ solver_log st1 = solver_log st
    ∧ (∀ l, l ∉ ls → heap st1 !! l = heap st !! l)
    ∧ (∀ i l, ls !! i = Some l → heap st1 !! l = copies st peaks !! i)
    ∧ optimize data peaks options st
      = match getKind (default (Some "gaussian"%string) (shape options))
        with
        | Throw msg => (Throw msg, st1)
        | Ok kind =>
            match getMaxValue (data_y data) with
            | Throw msg => (Throw msg, st1)
            | Ok maxY =>
                match select_shape kind with
                | Throw msg => (Throw msg, st1)
                | Ok (nb, paramsFunc) =>
                    fit_and_decode data options (copies st peaks) ls st1
                      maxY nb paramsFunc
                end
            end
        end.
Proof.
  destruct (JSON_parse_spec (copies st peaks) st)
    as (ls & st1 & Ep & Hlen & Hnd & Hfresh & Hlog & Hframe & Hnew).
  exists ls, st1. unfold copies in Hlen at 1. rewrite length_fmap in Hlen.
  repeat (split; [done|]).
  unfold optimize.
  erewrite bind_ok by apply JSON_stringify_spec.
  erewrite bind_ok by exact Ep.
  unfold mbind at 1, M_bind at 1, lift at 1.
  destruct (getKind _) as [kind|msg]; [|done].
  unfold mbind at 1, M_bind at 1, lift at 1.
  destruct (getMaxValue _) as [maxY|msg]; [|done].
  unfold mbind at 1, M_bind at 1, lift at 1.
  destruct (select_shape kind) as [[nb paramsFunc]|msg]; [|done].
  erewrite bind_ok.
  2:{ apply (legacy_fill_peaks _ ls (copies st peaks)); [|done].
      unfold copies. by rewrite length_fmap. }
  unfold fit_and_decode.
  destruct (fill_vectors _ _ _ _) as [[pInit pMin] pMax] eqn:Eb.
  unfold mbind at 1, M_bind at 1, lift at 1.
  destruct (selectMethod _) as [[algorithm oo]|msg]; [|done].
  unfold mbind at 1, M_bind at 1, call at 1.
  unfold the_call. cbn [fst snd]. unfold called.
  destruct (algorithm _) as [pFit|msg]; [|done].
  unfold mbind at 1, M_bind at 1.
  destruct (decode _ _ _ _ _) as [[pv'|msg] st3]; done.
Qed.


End LegacyRun.

(** ** The vectors and the decoding of the older [optimize] *)

Lemma iterate_inv {T} (I : nat → T → Prop) (body : nat → T → T)
    (i count : nat) (s : T) :
  I i s →
  (∀ j s, (i ≤ j < i + count)%nat → I j s → I (S j) (body j s)) →
  I (i + count)%nat (iterate body i count s).
Proof.
  revert i s. induction count as [|count IH]; intros i s HI Hbody.
  - by rewrite Nat.add_0_r.
  - cbn. replace (i + S count)%nat with (S i + count)%nat by lia.
    apply IH; [apply Hbody; [lia | done]|].
    intros j s' Hj. apply Hbody. lia.
Qed.

Lemma legacy_fill_vector (deltaX : value) (n i : nat) (peak : obj) (s : nat)
    (b : Legacy.buffers) (state : Z) :
  legacy_vector_of state (Legacy.fill deltaX n i peak s b)
  = <[(i + s * n)%nat :=
        to_number
          (Legacy.getValue (Z.of_nat s) peak
             (if decide (state = STATE_INIT) then STATE_INIT
              else if decide (state = STATE_MIN) then STATE_MIN
              else STATE_MAX) deltaX)]>
      (legacy_vector_of state b).
Proof.
  destruct b as [[pInit pMin] pMax]. unfold legacy_vector_of, Legacy.fill.
  repeat case_decide; done.
Qed.

Lemma legacy_state_cases (state : Z) :
  state ∈ legacy_states →
  (if decide (state = STATE_INIT) then STATE_INIT
   else if decide (state = STATE_MIN) then STATE_MIN
   else STATE_MAX) = state.
Proof.
  unfold legacy_states. intros Hst.
  repeat (apply elem_of_cons in Hst as [-> | Hst]); try done.
  by apply elem_of_nil in Hst.
Qed.

Lemma legacy_filled_step (deltaX : value) (objs : list obj) (nb i s : nat)
    (peak : obj) (b : Legacy.buffers) :
  objs !! i = Some peak → (s < nb)%nat →
  legacy_filled deltaX objs nb (fun i' s' => i' < i ∨ i' = i ∧ s' < s)%nat b →
  legacy_filled deltaX objs nb (fun i' s' => i' < i ∨ i' = i ∧ s' < S s)%nat
    (Legacy.fill deltaX (length objs) i peak s b).
Proof.
  intros Hi Hs Hb state Hst.
  destruct (Hb state Hst) as [Hlen Hrows].
  rewrite legacy_fill_vector, (legacy_state_cases state Hst).
  assert (Hin : (i < length objs)%nat) by (eapply lookup_lt_Some; eauto).
  split; [by rewrite length_insert|].
  intros i' s' peak' Hi' Hs' Hw.
  assert (Hin' : (i' < length objs)%nat) by (eapply lookup_lt_Some; eauto).
  destruct (decide (i' = i ∧ s' = s)) as [[-> ->]|Hne].
  - rewrite list_lookup_insert_eq; [congruence|].
    rewrite Hlen. by apply index_lt.
  - rewrite list_lookup_insert_ne.
    + apply Hrows; try done.
      destruct Hw as [Hw|[-> Hw]]; [by left|right].
      split; [done|]. destruct (decide (s' = s)) as [->|]; [|lia].
      exfalso. by apply Hne.
    + intros E. apply index_inj in E; [|done..]. apply Hne.
      destruct E as [-> ->]. done.
Qed.

Lemma legacy_fill_vectors_filled (deltaX : value) (objs : list obj)
    (nb : nat) (b : Legacy.buffers) :
  (∀ state, state ∈ legacy_states →
     length (legacy_vector_of state b) = (length objs * nb)%nat) →
  legacy_filled deltaX objs nb (fun _ _ => True)
    (LegacyRun.fill_vectors deltaX objs nb b).
Proof.
  intros Hb. unfold LegacyRun.fill_vectors.
  assert (Hfin :
    legacy_filled deltaX objs nb (fun i' _ => i' < 0 + length objs)%nat
      (iterate
         (fun i b =>
            iterate
              (fun s b =>
                 Legacy.fill deltaX (length objs) i (default ∅ (objs !! i)) s b)
              0 nb b)
         0 (length objs) b)).
  { apply (iterate_inv
      (fun i b => legacy_filled deltaX objs nb (fun i' _ => i' < i)%nat b)).
    - intros state Hst. split; [eauto|]. intros; lia.
    - intros i b1 Hi Hb1.
      destruct (lookup_lt_is_Some_2 objs i) as [peak Hpeak]; [lia|].
      rewrite Hpeak. cbn [default from_option id].
      assert (Hrow :
        legacy_filled deltaX objs nb
          (fun i' s' => i' < i ∨ i' = i ∧ s' < 0 + nb)%nat
          (iterate (fun s b => Legacy.fill deltaX (length objs) i peak s b)
             0 nb b1)).
      { apply (iterate_inv
          (fun s b =>
             legacy_filled deltaX objs nb
               (fun i' s' => i' < i ∨ i' = i ∧ s' < s)%nat b)).
        - intros state Hst. destruct (Hb1 state Hst) as [? Hr].
          split; [done|]. intros i' s' peak' ? ? [?|[_ ?]]; [eauto | lia].
        - intros s b2 Hs Hb2. apply legacy_filled_step; [done | lia | done]. }
      intros state Hst. destruct (Hrow state Hst) as [? Hr].
      split; [done|]. intros i' s' peak' ? ? ?. apply Hr; try done.
      destruct (decide (i' = i)); [right; split; [done | lia] | left; lia]. }
  intros state Hst. destruct (Hfin state Hst) as [? Hrows].
  split; [done|]. intros i s peak Hi ? _. apply Hrows; try done.
  apply lookup_lt_Some in Hi. lia.
Qed.

Section LegacyDecodes.
Context `{!Collaborators}.

(** The call of the older [optimize], its vectors and its decoding. *)
Lemma legacy_optimize_decodes (data : Data) (peaks : list loc)
    (options : Options) (st : state) (kind : value) (maxY : float)
    (nb : nat) f algorithm oo :
  getKind (default (Some "gaussian"%string) (shape options)) = Ok kind →
  select_shape kind = Ok (nb, f) →
  getMaxValue (data_y data) = Ok maxY →
  selectMethod (default default_optimization (optimization options))
  = Ok (algorithm, oo) →
  ∃ c0,
    solver_log (Legacy.optimize data peaks options st).2
    = solver_log st ++ [c0]
    ∧ legacy_layout (LegacyRun.delta (data_x data)) (copies st peaks) nb
        STATE_INIT (initialValues (call_options c0))
    ∧ legacy_layout (LegacyRun.delta (data_x data)) (copies st peaks) nb
        STATE_MIN (minValues (call_options c0))
    ∧ legacy_layout (LegacyRun.delta (data_x data)) (copies st peaks) nb
        STATE_MAX (maxValues (call_options c0))
    ∧ gradientDifference (call_options c0) = gradientDifference oo
    ∧ (∀ pFit, algorithm c0 = Ok pFit →
         (length peaks * nb ≤ array_length (parameterValues pFit))%nat →
         decoded (length peaks) nb maxY (parameterValues pFit)
           (Legacy.optimize data peaks options st)).
Proof.
  intros Hk Hs Hmax Hm.
  destruct (legacy_optimize_run data peaks options st)
    as (ls & st1 & Hlen & Hnd & _ & Hlog & _ & _ & ->).
  rewrite Hk, Hmax, Hs. unfold LegacyRun.fit_and_decode. rewrite Hm. cbn zeta.
  set (b := LegacyRun.fill_vectors _ _ _ _).
  assert (Hn : length (copies st peaks) = length ls)
    by (unfold copies; by rewrite length_fmap).
  assert (Hb : legacy_filled (LegacyRun.delta (data_x data)) (copies st peaks)
                 nb (fun _ _ => True) b).
  { apply legacy_fill_vectors_filled. intros state Hst. rewrite Hn.
    unfold legacy_vector_of. repeat case_decide; apply length_replicate. }
  assert (Hlay : ∀ state, state ∈ legacy_states →
    legacy_layout (LegacyRun.delta (data_x data)) (copies st peaks) nb state
      (Some (legacy_vector_of state b))).
  { intros state Hst. destruct (Hb state Hst) as [Hl Hrows].
    eexists. split; [done|]. split; [done|]. intros; by apply Hrows. }
  exists (LegacyRun.the_call data maxY f oo b).
  apply select_shape_nbParams in Hs.
  split.
  { destruct (algorithm _) as [pFit|msg]; [|by cbn; rewrite Hlog].
    destruct (decode_spec ls nb maxY (parameterValues pFit)
      (called st1 (LegacyRun.the_call data maxY f oo b)))
      as (pv' & st3 & -> & Hlog3 & _); [done | lia |].
    cbn. by rewrite Hlog3, <- Hlog. }
  split; [apply (Hlay STATE_INIT); unfold legacy_states;
          repeat first [apply list_elem_of_here | apply list_elem_of_further]|].
  split; [apply (Hlay STATE_MIN); unfold legacy_states;
          repeat first [apply list_elem_of_here | apply list_elem_of_further]|].
  split; [apply (Hlay STATE_MAX); unfold legacy_states;
          repeat first [apply list_elem_of_here | apply list_elem_of_further]|].
  split; [done|].
  intros pFit Ea Hpv. rewrite Ea. rewrite <- Hlen in *.
  apply decode_decoded; [done | lia | done].
Qed.

End LegacyDecodes.

(** ** A run that returns *)

Lemma write_fields_keeps (l : loc) (i n nb : nat) (pv : jsarray) (st : state) :
  ∃ st',
    for_loop (fun s (_ : unit) => write l (key_at s) (array_get pv (i + s * n)))
      0 nb () st = (Ok (), st')
    ∧ solver_log st' = solver_log st
    ∧ (∀ l', l' ≠ l → heap st' !! l' = heap st !! l')
    ∧ (∀ key, not_decoded nb key →
         get (deref (heap st') l) key = get (deref (heap st) l) key).
Proof.
  destruct (for_loop_ok
    (fun s (_ : unit) st' =>
       solver_log st' = solver_log st
       ∧ (∀ l', l' ≠ l → heap st' !! l' = heap st !! l')
       ∧ (∀ key, not_decoded nb key →
            get (deref (heap st') l) key = get (deref (heap st) l) key))
    (fun s (_ : unit) => write l (key_at s) (array_get pv (i + s * n)))
    0 nb () st) as ([] & st' & E & Hlog & Hframe & Hkeep).
  - split; [done|]. split; done.
  - intros s [] st1 Hs (Hlog & Hframe & Hkeep).
    eexists (), _. split; [reflexivity|]. cbn.
    split; [done|]. split.
    + intros l' Hl'. rewrite lookup_insert_ne by done. by apply Hframe.
    + intros key Hkey. rewrite <- (Hkeep key Hkey). unfold deref, get.
      rewrite lookup_insert_eq. cbn.
      rewrite lookup_insert_ne; [done|]. intros E. apply (Hkey s); [lia|done].
  - exists st'. done.
Qed.

(** The decoding leaves every other field of the peaks as it was. *)
Lemma decode_keeps (ls : list loc) (nb : nat) (maxY : float) (pv : jsarray)
    (st : state) :
  ∃ pv' st',
    decode ls nb maxY pv st = (Ok pv', st')
    ∧ ∀ l key, not_decoded nb key →
        get (deref (heap st') l) key = get (deref (heap st) l) key.
Proof.
  unfold decode. set (n := length ls).
  destruct (for_loop_ok
    (fun (i : nat) (pv_i : jsarray) st_i =>
       ∀ l key, not_decoded nb key →
         get (deref (heap st_i) l) key = get (deref (heap st) l) key)
    (fun i pv =>
       let pv :=
         array_set pv (i + n) (js_mul (array_get pv (i + n)) (Num maxY)) in
       _ ← for_loop
             (fun s (_ : unit) =>
                write (default 0%nat (ls !! i)) (key_at s)
                  (array_get pv (i + s * n)))
             0 nb ();
       mret pv)
    0 n pv st) as (pv' & st' & E & Hkeep).
  - done.
  - intros i pv_i st_i Hi Hkeep. cbn zeta.
    destruct (write_fields_keeps (default 0%nat (ls !! i)) i n nb
      (array_set pv_i (i + n) (js_mul (array_get pv_i (i + n)) (Num maxY)))
      st_i) as (st2 & E2 & _ & Hframe2 & Hkeep2).
    eexists _, st2. split; [by erewrite bind_ok by exact E2|].
    intros l key Hkey. rewrite <- (Hkeep l key Hkey).
    destruct (decide (l = default 0%nat (ls !! i))) as [->|Hne].
    + by apply Hkeep2.
    + unfold deref. by rewrite Hframe2.
  - exists pv', st'. done.
Qed.

Section Returns.
Context `{!Collaborators}.

(** A run that returns has passed [checkInput] and [selectMethod], the
    solver has returned, and the decoding has run on its values. *)
Lemma optimize_ok_inv (data : Data) (peaks : list loc) (options : Options)
    (st : state) (r : result) :
  (optimize data peaks options st).1 = Ok r →
  ∃ c st1 c0 pFit pv',
    checkInput data options = Ok c
    ∧ length (result_peaks r) = length peaks
    ∧ NoDup (result_peaks r)
    ∧ (∀ i l, result_peaks r !! i = Some l →
         heap st1 !! l = copies st peaks !! i)
    ∧ solver_log st1 = solver_log st
    ∧ (∃ algorithm oo,
         selectMethod (checked_optimization c) = Ok (algorithm, oo)
         ∧ algorithm c0 = Ok pFit)
    ∧ result_error r = parameterError pFit
    ∧ result_iterations r = iterations pFit
    ∧ decode (result_peaks r) (checked_nbParams c) (checked_maxY c)
        (parameterValues pFit) (called st1 c0)
      = (Ok pv', (optimize data peaks options st).2).
Proof.
  intros Hr. destruct (checkInput data options) as [c|msg] eqn:Hc.
  2:{ unfold optimize in Hr.
      by erewrite bind_throw in Hr by (unfold lift; rewrite Hc; reflexivity). }
  destruct (optimize_run data peaks options st c Hc)
    as (ls & st1 & b & Hlen & Hnd & _ & Hlog & _ & Hnew & _ & E).
  rewrite E in Hr |- *. clear E.
  destruct (selectMethod _) as [[algorithm oo]|msg] eqn:Hm; [|done].
  cbn zeta in *.
  destruct (algorithm (the_call c oo b)) as [pFit|msg] eqn:Ea; [|done].
  destruct (decode ls _ _ _ _) as [[pv'|msg] st3] eqn:Ed; [|done].
  cbn in Hr. injection Hr as <-. cbn.
  exists c, st1, (the_call c oo b), pFit, pv'.
  repeat (split; [done|]). split; [by exists algorithm, oo|]. done.
Qed.

Lemma legacy_optimize_ok_inv (data : Data) (peaks : list loc)
    (options : Options) (st : state) (r : result) :
  (Legacy.optimize data peaks options st).1 = Ok r →
  ∃ kind maxY nb f st1 c0 pFit pv',
    getKind (default (Some "gaussian"%string) (shape options)) = Ok kind
    ∧ select_shape kind = Ok (nb, f)
    ∧ getMaxValue (data_y data) = Ok maxY
    ∧ length (result_peaks r) = length peaks
    ∧ NoDup (result_peaks r)
    ∧ (∀ i l, result_peaks r !! i = Some l →
         heap st1 !! l = copies st peaks !! i)
    ∧ solver_log st1 = solver_log st
    ∧ (∃ algorithm oo,
         selectMethod (default default_optimization (optimization options))
         = Ok (algorithm, oo)
         ∧ algorithm c0 = Ok pFit)
    ∧ result_error r = parameterError pFit
    ∧ result_iterations r = iterations pFit
    ∧ decode (result_peaks r) nb maxY (parameterValues pFit) (called st1 c0)
      = (Ok pv', (Legacy.optimize data peaks options st).2).
Proof.
  intros Hr.
  destruct (legacy_optimize_run data peaks options st)
    as (ls & st1 & Hlen & Hnd & _ & Hlog & _ & Hnew & E).
  rewrite E in Hr |- *. clear E.
  destruct (getKind _) as [kind|msg]; [|done].
  destruct (getMaxValue _) as [maxY|msg]; [|done].
  destruct (select_shape kind) as [[nb f]|msg] eqn:Hs; [|done].
  unfold LegacyRun.fit_and_decode in *.
  destruct (selectMethod _) as [[algorithm oo]|msg] eqn:Hm; [|done].
  cbn zeta in *.
  destruct (algorithm _) as [pFit|msg] eqn:Ea; [|done].
  destruct (decode ls _ _ _ _) as [[pv'|msg] st3] eqn:Ed; [|done].
  cbn [fst] in Hr. injection Hr as <-.
  cbn [snd result_peaks result_error result_iterations].
  eexists kind, maxY, nb, f, st1, _, pFit, pv'.
  repeat (split; [done|]). split; [exists algorithm, oo; split; [done|exact Ea]|].
  repeat (split; [done|]). exact Ed.
Qed.

End Returns.

(** ** C3 and C4: the caller's peaks, and the shapes that are not known *)

Lemma keeps_throw (st st1 : state) (ls : list loc) (msg : string) :
  (∀ l, l ∈ ls → l ∉ dom (heap st)) →
  (∀ l, l ∉ ls → heap st1 !! l = heap st !! l) →
  keeps st (Throw msg, st1).
Proof.
  intros Hfresh Hframe. split; cbn; [|done].
  intros l Hl. apply Hframe. intros Hin. by apply Hfresh in Hin.
Qed.

(** The same of the last steps of a run: the call and the decoding. *)
Lemma keeps_tail (st st1 : state) (ls : list loc) (nb : nat) (maxY : float)
    (c0 : solver_call) (answer : outcome fit) :
  (nb ≤ 4)%nat → NoDup ls →
  (∀ l, l ∈ ls → l ∉ dom (heap st)) →
  (∀ l, l ∉ ls → heap st1 !! l = heap st !! l) →
  keeps st
    match answer with
    | Throw msg => (Throw msg, called st1 c0)
    | Ok pFit =>
        match decode ls nb maxY (parameterValues pFit) (called st1 c0) with
        | (Ok _, st3) =>
            (Ok {| result_error := parameterError pFit;
                   result_iterations := iterations pFit;
                   result_peaks := ls |}, st3)
        | (Throw msg, st3) => (Throw msg, st3)
        end
    end.
Proof.
  intros Hnb Hnd Hfresh Hframe. destruct answer as [pFit|msg].
  - destruct (decode_spec ls nb maxY (parameterValues pFit) (called st1 c0))
      as (pv' & st3 & -> & _ & Hframe3 & _); [done..|].
    split; cbn.
    + intros l Hl.
      assert (l ∉ ls) by (intros Hin; by apply Hfresh in Hin).
      rewrite Hframe3 by done. cbn. by apply Hframe.
    + intros r l [= <-]. cbn. apply Hfresh.
  - by apply (keeps_throw st (called st1 c0) ls).
Qed.

Lemma keeps_and_copies (st st1 : state) (peaks ls : list loc) (nb : nat)
    (maxY : float) (c0 : solver_call) (answer : outcome fit) :
  (nb ≤ 4)%nat → length ls = length peaks → NoDup ls →
  (∀ l, l ∈ ls → l ∉ dom (heap st)) →
  (∀ l, l ∉ ls → heap st1 !! l = heap st !! l) →
  (∀ i l, ls !! i = Some l → heap st1 !! l = copies st peaks !! i) →
  let run :=
    match answer with
    | Throw msg => (Throw msg, called st1 c0)
    | Ok pFit =>
        match decode ls nb maxY (parameterValues pFit) (called st1 c0) with
        | (Ok _, st3) =>
            (Ok {| result_error := parameterError pFit;
                   result_iterations := iterations pFit;
                   result_peaks := ls |}, st3)
        | (Throw msg, st3) => (Throw msg, st3)
        end
    end in
  keeps st run ∧ works_on_copies st peaks run.
Proof.
  intros Hnb Hlen Hnd Hfresh Hframe Hnew run. split.
  - by apply keeps_tail.
  - subst run. destruct answer as [pFit|msg]; [|done].
    destruct (decode_spec ls nb maxY (parameterValues pFit) (called st1 c0))
      as (pv' & st3 & Ed & _); [done..|].
    rewrite Ed. intros r [= <-]. cbn [result_peaks snd].
    split; [done|]. split; [done|].
    exists st1, c0, nb, maxY, pFit, pv'. done.
Qed.

Lemma throw_works_on_copies (st st1 : state) (peaks : list loc)
    (msg : string) :
  works_on_copies st peaks (Throw msg, st1).
Proof. intros r Hr. done. Qed.

Section Callers.
Context `{!Collaborators}.

(** C3. For every input, both revisions of [optimize] work on copies of
    the peaks.  When the call ends, with a result or with an error, every
    object the caller had is as it was, and the peaks of a result are new
    objects, none of them one of the caller's.  A result has one new object
    for each peak given: the copy is made first, each new object holding the
    JSON copy of its peak while the caller's objects are as they were, and the
    fitted values are written only then, by the decoding loop. *)
Theorem optimize_copies_peaks (data : Data) (peaks : list loc)
    (options : Options) (st : state) :
  (keeps st (optimize data peaks options st)
   ∧ works_on_copies st peaks (optimize data peaks options st))
  ∧ (keeps st (Legacy.optimize data peaks options st)
     ∧ works_on_copies st peaks (Legacy.optimize data peaks options st)).
Proof.
  split.
  - destruct (checkInput data options) as [c|msg] eqn:Hc.
    + destruct (optimize_run data peaks options st c Hc)
        as (ls & st1 & b & Hlen & Hnd & Hfresh & _ & Hframe & Hnew & _ & ->).
      destruct (checkInput_inv _ _ _ Hc) as (kind & _ & _ & Hs & _).
      apply select_shape_nbParams in Hs.
      destruct (selectMethod _) as [[algorithm oo]|msg].
      * apply (keeps_and_copies st st1 peaks ls); [lia | done..].
      * split; [by apply (keeps_throw st st1 ls)|].
        apply throw_works_on_copies.
    + unfold optimize.
      erewrite bind_throw by (unfold lift; rewrite Hc; reflexivity).
      split; [split; cbn; done | apply throw_works_on_copies].
  - destruct (legacy_optimize_run data peaks options st)
      as (ls & st1 & Hlen & Hnd & Hfresh & _ & Hframe & Hnew & ->).
    destruct (getKind _) as [kind|msg];
      [|split; [by apply (keeps_throw st st1 ls)
               | apply throw_works_on_copies]].
    destruct (getMaxValue _) as [maxY|msg];
      [|split; [by apply (keeps_throw st st1 ls)
               | apply throw_works_on_copies]].
    destruct (select_shape kind) as [[nb paramsFunc]|msg] eqn:Hs;
      [|split; [by apply (keeps_throw st st1 ls)
               | apply throw_works_on_copies]].
    apply select_shape_nbParams in Hs.
    unfold LegacyRun.fit_and_decode.
    destruct (selectMethod _) as [[algorithm oo]|msg].
    + apply (keeps_and_copies st st1 peaks ls); [lia | done..].
    + split; [by apply (keeps_throw st st1 ls)|].
      apply throw_works_on_copies.
Qed.

Lemma select_shape_recognized (shape : option string) (kind : value) nb f :
  getKind shape = Ok kind → select_shape kind = Ok (nb, f) →
  recognized shape.
Proof.
  intros Ek Es. exists kind. split; [done|]. unfold select_shape in Es.
  destruct (number_is kind 1); [done|].
  destruct (number_is kind 2); [done|].
  destruct (number_is kind 3); done.
Qed.

(** C4. For every shape kind that is not recognized, both revisions of
    [optimize] throw without calling the solver and leave every object of
    the caller as it was (the newer one changes nothing at all). *)
Theorem unsupported_kind_rejected (data : Data) (peaks : list loc)
    (options : Options) (st : state) :
  ¬ recognized (default (Some "gaussian"%string) (shape options)) →
  (∃ msg, optimize data peaks options st = (Throw msg, st))
  ∧ (∃ msg st',
       Legacy.optimize data peaks options st = (Throw msg, st')
       ∧ solver_log st' = solver_log st
       ∧ ∀ l, l ∈ dom (heap st) → heap st' !! l = heap st !! l).
Proof.
  intros Hkind. split.
  - destruct (checkInput data options) as [c|msg] eqn:Hc.
    + destruct (checkInput_inv _ _ _ Hc) as (kind & Ek & _ & Hs & _).
      destruct Hkind. by eapply select_shape_recognized.
    + exists msg. unfold optimize.
      by erewrite bind_throw by (unfold lift; rewrite Hc; reflexivity).
  - destruct (legacy_optimize_run data peaks options st)
      as (ls & st1 & _ & _ & Hfresh & Hlog & Hframe & _ & E).
    assert (Hkeep : ∀ l, l ∈ dom (heap st) → heap st1 !! l = heap st !! l).
    { intros l Hl. apply Hframe. intros Hin. by apply Hfresh in Hin. }
    rewrite E.
    destruct (getKind _) as [kind|msg] eqn:Ek; [|by exists msg, st1].
    destruct (getMaxValue _) as [maxY|msg]; [|by exists msg, st1].
    destruct (select_shape kind) as [[nb paramsFunc]|msg] eqn:Es;
      [|by exists msg, st1].
    destruct Hkind. by eapply select_shape_recognized.
Qed.

End Callers.

Lemma optimize_copies_peaks_witness :
  ∃ r,
    (@optimize identity_world test_data [5%nat] no_options test_state).1 = Ok r
    ∧ length (result_peaks r) = 1%nat
    ∧ (5%nat ∉ result_peaks r)
    ∧ heap (@optimize identity_world test_data [5%nat] no_options
              test_state).2 !! 5%nat = Some test_peak.
Proof.
  destruct (@optimize_copies_peaks identity_world test_data [5%nat]
              no_options test_state) as (((Hsame & Hfresh) & Hcopy) & _).
  assert (∃ r, (@optimize identity_world test_data [5%nat] no_options
                  test_state).1 = Ok r) as [r Hr]
    by (eexists; vm_compute; reflexivity).
  assert (Hdom : 5%nat ∈ dom (heap test_state))
    by (apply elem_of_dom; eexists; reflexivity).
  exists r. split; [exact Hr|].
  destruct (Hcopy r Hr) as (Hlen & _). split; [exact Hlen|]. split.
  - intros Hin. exact (Hfresh r 5%nat Hr Hin Hdom).
  - rewrite (Hsame 5%nat Hdom). reflexivity.
Defined.

Lemma unsupported_kind_rejected_witness :
  (∃ msg, @optimize identity_world test_data [5%nat] triangular test_state
          = (Throw msg, test_state))
  ∧ (∃ msg st',
       @Legacy.optimize identity_world test_data [5%nat] triangular test_state
       = (Throw msg, st')
       ∧ solver_log st' = solver_log test_state
       ∧ ∀ l, l ∈ dom (heap test_state) →
           heap st' !! l = heap test_state !! l).
Proof.
  apply (@unsupported_kind_rejected identity_world test_data [5%nat]
           triangular test_state).
  intros (kind & Ek & _). vm_compute in Ek. discriminate Ek.
Defined.

(** ** C1: the layout and the round trip *)

Section RoundTrip.
Context `{!Collaborators}.


End RoundTrip.



(** ** C8 and C10: the resolver *)

(** C8. For every parameter index outside 0..3, [getValue] (lines 98-168)
    throws: with "The parameter is not supported" in each of the four states
    (initial, min, max, gradient step), and with an error in every other
    state too; it never returns a value. *)
Theorem getValue_rejects_unknown_parameter (parameterIndex : Z) (peak : obj)
    (state : Z) (options : obj) :
  parameterIndex < 0 ∨ 3 < parameterIndex →
  (state ∈ states →
   getValue parameterIndex peak state options
   = Throw "The parameter is not supported")
  ∧ ∃ msg, getValue parameterIndex peak state options = Throw msg.
Proof.
  intros Hout.
  assert (HX : parameterIndex ≠ X) by (unfold X; lia).
  assert (HY : parameterIndex ≠ Y) by (unfold Y; lia).
  assert (HW : parameterIndex ≠ WIDTH) by (unfold WIDTH; lia).
  assert (HM : parameterIndex ≠ MU) by (unfold MU; lia).
  unfold getValue.
  rewrite !(decide_False (P := parameterIndex = X)) by done.
  rewrite !(decide_False (P := parameterIndex = Y)) by done.
  rewrite !(decide_False (P := parameterIndex = WIDTH)) by done.
  rewrite !(decide_False (P := parameterIndex = MU)) by done.
  split.
  - intros Hst. repeat case_decide; try done.
    unfold states in Hst. exfalso.
    repeat (apply elem_of_cons in Hst as [-> | Hst]); try done.
    by apply elem_of_nil in Hst.
  - repeat case_decide; eauto.
Qed.

Lemma getValue_rejects_unknown_parameter_witness :
  getValue 4 test_peak STATE_GRADIENT_DIFFERENCE ∅
  = Throw "The parameter is not supported".
Proof.
  apply (getValue_rejects_unknown_parameter 4 test_peak
           STATE_GRADIENT_DIFFERENCE ∅); [lia|].
  unfold states. repeat first [apply list_elem_of_here | apply list_elem_of_further].
Defined.

(** The resolver of the older revision (lines 263-289) has three states and
    no error: its [default] case serves the mixing fraction, and so every
    index other than 0, 1, 2. *)
Lemma legacy_getValue_default (parameterIndex : Z) (peak : obj) (key : Z)
    (dt : value) :
  parameterIndex < 0 ∨ 2 < parameterIndex →
  Legacy.getValue parameterIndex peak key dt
  = Legacy.by_key key (Num 0.5) (Num 0) (Num 1).
Proof.
  intros Hout. unfold Legacy.getValue.
  rewrite !decide_False by lia. done.
Qed.

(** C10. For every peak whose [mu] is 0 (or -0), [getValue] gives 0.5 as
    the initial mixing fraction, on the peak and on its JSON copy alike, and
    0.5 is what a pseudo-Voigt run places in the initial vector at index
    [i + 3 * nbPeaks]: the falsy 0 is treated as an absent [mu]. *)
Theorem zero_mu_starts_at_half `{!Collaborators} (data : Data)
    (peaks : list loc) (options : Options) (st : state) (c : checked)
    algorithm oo (i : nat) (l : loc) (m : float) :
  checkInput data options = Ok c →
  selectMethod (checked_optimization c) = Ok (algorithm, oo) →
  checked_nbParams c = 4%nat →
  peaks !! i = Some l →
  get (deref (heap st) l) "mu" = Num m →
  PrimFloat.eqb m 0 = true →
  getValue MU (deref (heap st) l) STATE_INIT (checked_getValueOptions c)
  = Ok (Num 0.5)
  ∧ ∃ c0 cells,
      solver_log (optimize data peaks options st).2 = solver_log st ++ [c0]
      ∧ initialValues (call_options c0) = Some cells
      ∧ cells !! (i + 3 * length peaks)%nat = Some 0.5%float.
Proof.
  intros Hc Hm Hnb Hl Hmu Hzero. split.
  - unfold getValue. cbn. rewrite Hmu. unfold js_or, truthy.
    by rewrite Hzero.
  - destruct (optimize_calls data peaks options st c algorithm oo Hc Hm)
      as (c0 & Hlog & (Hinit & _) & _).
    destruct Hinit as (cells & Hcells & _ & Hrows).
    exists c0, cells. split; [done|]. split; [done|].
    assert (Hi : copies st peaks !! i = Some (json_obj (deref (heap st) l)))
      by (unfold copies; by rewrite list_lookup_fmap, Hl).
    destruct (Hrows i 3%nat _ Hi) as (v & Ev & Hv); [lia|].
    unfold copies in Hv. rewrite length_fmap in Hv. rewrite Hv.
    unfold getValue in Ev. cbn in Ev. injection Ev as <-.
    assert (Hcopy : get (json_obj (deref (heap st) l)) "mu" = Num 0
                    ∨ get (json_obj (deref (heap st) l)) "mu" = Null).
    { unfold get, json_obj in *. rewrite lookup_omap.
      destruct (deref (heap st) l !! "mu"%string) as [v|]; cbn in Hmu; [|done].
      subst v. cbn. rewrite Hzero. destruct (is_finite m); auto. }
    by destruct Hcopy as [-> | ->].
Qed.

Lemma zero_mu_starts_at_half_witness :
  ∃ c0 cells,
    solver_log (@optimize identity_world test_data [5%nat] pseudovoigt
                  mu0_state).2 = solver_log mu0_state ++ [c0]
    ∧ initialValues (call_options c0) = Some cells
    ∧ cells !! 3%nat = Some 0.5%float.
Proof.
  refine (proj2 (@zero_mu_starts_at_half identity_world test_data [5%nat]
                   pseudovoigt mu0_state _ _ _ 0%nat 5%nat 0%float
                   _ _ _ _ _ _));
    vm_compute; reflexivity.
Defined.

(** ** C2: default bounds *)

Lemma test_peak_copy : json_obj test_peak = test_peak.
Proof. vm_compute. reflexivity. Qed.

(** C2. For the peak [{ x: 0, y: 1, width: 2 }] under default options (any
    shape, no [optimization] settings), [getValue] gives the lower position
    bound -4, the upper position bound 4, the lower width bound 0.5 and the
    upper width bound 8, and these are the numbers at the position and width
    indices of the [minValues] and [maxValues] vectors handed to the solver. *)
Theorem default_bounds `{!Collaborators} (data : Data)
    (sh : option (option string)) (st : state) (l : loc) (c : checked) :
  checkInput data {| shape := sh; optimization := None |} = Ok c →
  heap st !! l = Some test_peak →
  (getValue X test_peak STATE_MIN (checked_getValueOptions c) = Ok (Num (-4))
   ∧ getValue X test_peak STATE_MAX (checked_getValueOptions c) = Ok (Num 4)
   ∧ getValue WIDTH test_peak STATE_MIN (checked_getValueOptions c)
     = Ok (Num 0.5)
   ∧ getValue WIDTH test_peak STATE_MAX (checked_getValueOptions c)
     = Ok (Num 8))
  ∧ ∃ c0 mins maxs,
      solver_log
        (optimize data [l] {| shape := sh; optimization := None |} st).2
      = solver_log st ++ [c0]
      ∧ minValues (call_options c0) = Some mins
      ∧ maxValues (call_options c0) = Some maxs
      ∧ mins !! 0%nat = Some (-4)%float
      ∧ maxs !! 0%nat = Some 4%float
      ∧ mins !! 2%nat = Some 0.5%float
      ∧ maxs !! 2%nat = Some 8%float.
Proof.
  intros Hc Hl.
  destruct (checkInput_inv _ _ _ Hc)
    as (kind & _ & _ & Hs & _ & _ & Hopt & Hgvo).
  cbn in Hopt, Hgvo.
  assert (Hvalues :
    getValue X test_peak STATE_MIN (checked_getValueOptions c) = Ok (Num (-4))
    ∧ getValue X test_peak STATE_MAX (checked_getValueOptions c) = Ok (Num 4)
    ∧ getValue WIDTH test_peak STATE_MIN (checked_getValueOptions c)
      = Ok (Num 0.5)
    ∧ getValue WIDTH test_peak STATE_MAX (checked_getValueOptions c)
      = Ok (Num 8)).
  { rewrite Hgvo. generalize (checked_maxY c). intros m.
    repeat split; vm_compute; reflexivity. }
  split; [done|]. destruct Hvalues as (Hx1 & Hx2 & Hw1 & Hw2).
  destruct (optimize_calls data [l] _ st c levenbergMarquardt
    {| tuning := lm_defaults; minValues := None; maxValues := None;
       initialValues := None; gradientDifference := None |} Hc)
    as (c0 & Hlog & (_ & Hmin & Hmax & _) & _).
  { rewrite Hopt. apply default_method. }
  destruct Hmin as (mins & Emins & _ & Hmins).
  destruct Hmax as (maxs & Emaxs & _ & Hmaxs).
  exists c0, mins, maxs. split; [done|]. split; [done|]. split; [done|].
  apply select_shape_nbParams in Hs.
  assert (Hpeak : copies st [l] !! 0%nat = Some test_peak).
  { unfold copies, deref. cbn [fmap list_fmap lookup list_lookup].
    rewrite Hl. cbn [default from_option id]. by rewrite test_peak_copy. }
  repeat split.
  - destruct (Hmins 0%nat 0%nat _ Hpeak) as (v & Ev & Hv); [lia|].
    change (Z.of_nat 0) with X in Ev. rewrite Hx1 in Ev.
    injection Ev as <-. exact Hv.
  - destruct (Hmaxs 0%nat 0%nat _ Hpeak) as (v & Ev & Hv); [lia|].
    change (Z.of_nat 0) with X in Ev. rewrite Hx2 in Ev.
    injection Ev as <-. exact Hv.
  - destruct (Hmins 0%nat 2%nat _ Hpeak) as (v & Ev & Hv); [lia|].
    change (Z.of_nat 2) with WIDTH in Ev. rewrite Hw1 in Ev.
    injection Ev as <-. exact Hv.
  - destruct (Hmaxs 0%nat 2%nat _ Hpeak) as (v & Ev & Hv); [lia|].
    change (Z.of_nat 2) with WIDTH in Ev. rewrite Hw2 in Ev.
    injection Ev as <-. exact Hv.
Qed.

Lemma default_bounds_witness :
  ∃ c0 mins maxs,
    solver_log (@optimize identity_world test_data [5%nat] no_options
                  test_state).2 = [c0]
    ∧ minValues (call_options c0) = Some mins
    ∧ maxValues (call_options c0) = Some maxs
    ∧ mins !! 0%nat = Some (-4)%float
    ∧ maxs !! 0%nat = Some 4%float
    ∧ mins !! 2%nat = Some 0.5%float
    ∧ maxs !! 2%nat = Some 8%float.
Proof.
  edestruct (@default_bounds identity_world test_data None test_state 5%nat)
    as (_ & H); [vm_compute; reflexivity | vm_compute; reflexivity |].
  exact H.
Defined.

(** The older [optimize] bounds the position by the sampling step instead:
    for the same peak on the spectrum of the test file, whose step is 1, the
    position bounds are -1 and 1; the width bounds are 0.5 and 8 there too. *)
Lemma legacy_default_bounds :
  (λ c0, (minValues (call_options c0), maxValues (call_options c0)))
  <$> solver_log (@Legacy.optimize identity_world test_data [5%nat] no_options
                    test_state).2
  = [(Some [-1; 0; 0.5]%float, Some [1; 1.5; 8]%float)].
Proof. vm_compute. reflexivity. Qed.

(** ** C5: gradient steps *)

Lemma get_options_default (m : float) (user : obj) (key : string) :
  key ≠ "maxY"%string → user !! key = None →
  get (<["maxY" := Num m]> (user ∪ default_settings)) key
  = get default_settings key.
Proof.
  intros Hkey Huser. unfold get.
  rewrite lookup_insert_ne by done. by rewrite lookup_union_r.
Qed.

(** C5 (amended). For every peak, each gradient step is resolved in the
    order: the per-peak field if defined, else the option if defined, else
    [peak.width / 2000] for position and width; for height and mixing
    fraction the option is taken as it is, and [checkInput] defaults it to
    1e-3 and 0.01.  An override is used as the value it is and never called:
    a function-valued option is what [getValue] returns, and it is NaN once
    stored; a function-valued field of a peak is left out by the JSON copy. *)
Theorem gradient_step_resolution (s : nat) (key : string) (peak options : obj) :
  gradient_keys !! s = Some key →
  (is_defined (get peak key) = true →
   getValue (Z.of_nat s) peak STATE_GRADIENT_DIFFERENCE options
   = Ok (get peak key))
  ∧ (get peak key = Undefined → is_defined (get options key) = true →
     getValue (Z.of_nat s) peak STATE_GRADIENT_DIFFERENCE options
     = Ok (get options key))
  ∧ (get peak key = Undefined → get options key = Undefined →
     getValue (Z.of_nat s) peak STATE_GRADIENT_DIFFERENCE options
     = Ok (builtin_step s peak))
  ∧ (∀ m user, get peak key = Undefined → user !! key = None →
     getValue (Z.of_nat s) peak STATE_GRADIENT_DIFFERENCE
       (<["maxY" := Num m]> (user ∪ default_settings))
     = Ok (default_step s peak))
  ∧ (∀ f, get peak key = Undefined → get options key = Func f →
     getValue (Z.of_nat s) peak STATE_GRADIENT_DIFFERENCE options
     = Ok (Func f)
     ∧ PrimFloat.is_nan (to_number (Func f)) = true)
  ∧ (∀ f, get peak key = Func f → get (json_obj peak) key = Undefined).
Proof.
  intros Hkey.
  assert (Hs : (s < 4)%nat) by (apply lookup_lt_Some in Hkey; exact Hkey).
  split; [|split; [|split; [|split; [|split]]]].
  - intros Hdef. index_cases s; injection Hkey as <-;
      unfold getValue; cbn; by rewrite Hdef.
  - intros Hpeak Hdef. index_cases s; injection Hkey as <-;
      unfold getValue; cbn; rewrite Hpeak; cbn; by rewrite ?Hdef.
  - intros Hpeak Hopt. index_cases s; injection Hkey as <-;
      unfold getValue; cbn; rewrite Hpeak; cbn; by rewrite Hopt.
  - intros m user Hpeak Huser. index_cases s; injection Hkey as <-;
      unfold getValue;
      match goal with
      | Hu : user !! ?k = None |- _ =>
          rewrite !(get_options_default m user k) by done
      end;
      cbn; by rewrite Hpeak.
  - intros f Hpeak Hopt. split; [|done]. index_cases s; injection Hkey as <-;
      unfold getValue; cbn; rewrite Hpeak; cbn; by rewrite Hopt.
  - intros f Hpeak. unfold get, json_obj in *. rewrite lookup_omap.
    destruct (peak !! key) as [v|]; cbn in *; [by subst v | done].
Qed.

Lemma gradient_step_resolution_witness :
  getValue X test_peak STATE_GRADIENT_DIFFERENCE
    (<["maxY" := Num 2]> (∅ ∪ default_settings))
  = Ok (Num 1e-3).
Proof.
  destruct (gradient_step_resolution 0 "xGradientDifference" test_peak ∅)
    as (_ & _ & _ & H & _); [reflexivity|].
  apply (H 2%float ∅); reflexivity.
Defined.

(** C5, as stated, fails: called on the peak the function gives 0.02, but as
    an option it reaches the gradient vector as NaN, and as a field of the
    peak it is lost in the copy, the vector holding [width / 2000 = 0.001]. *)
Lemma step_function_not_called :
  eval_lambda step_function test_peak = Num 0.02
  ∧ (gradientDifference ∘ call_options
     <$> solver_log (@optimize identity_world test_data [5%nat] step_option
                       test_state).2)
    = [Some [nan; 1e-3; 1e-3]%float]
  ∧ (gradientDifference ∘ call_options
     <$> solver_log (@optimize identity_world test_data [5%nat] no_options
                       step_state).2)
    = [Some [1e-3; 1e-3; 1e-3]%float].
Proof. repeat split; vm_compute; reflexivity. Qed.

(** ** C9: malformed inputs *)



Section Malformed.
Context `{!Collaborators}.


End Malformed.



(** With a single abscissa the older [optimize] takes the sampling step
    [|x[0] - x[1]|] from a missing [x[1]]: the step is NaN, and so are the
    position bounds that reach the solver. *)
Lemma legacy_short_x_gives_nan :
  (λ c0, (minValues (call_options c0), maxValues (call_options c0)))
  <$> solver_log (@Legacy.optimize identity_world ragged_data [5%nat]
                    no_options test_state).2
  = [(Some [nan; 0; 0.5]%float, Some [nan; 1.5; 8]%float)].
Proof. vm_compute. reflexivity. Qed.

(** ** C7: the shape models *)

Lemma trips_lt (i : nat) (nL : Q) : (of_nat i < nL)%Q → (i < trips nL)%nat.
Proof.
  intros H. unfold trips, of_nat in *.
  assert (Hc : (nL <= inject_Z (Qceiling nL))%Q) by apply Qle_ceiling.
  assert (Hi : (inject_Z (Z.of_nat i) < inject_Z (Qceiling nL))%Q)
    by (eapply Qlt_le_trans; eauto).
  rewrite <- Zlt_Qlt in Hi. lia.
Qed.

Lemma trips_le (i : nat) (nL : Q) : (nL <= of_nat i)%Q → (trips nL ≤ i)%nat.
Proof.
  intros H. unfold trips, of_nat in *.
  apply Qceiling_resp_le in H. rewrite Qceiling_Z in H. lia.
Qed.

Lemma sum_while_seq (nL : Q) (term : nat → float) (i : nat) (result : float) :
  sum_while nL term i result
  = fold_left (fun acc j => acc + term j)%float (seq i (trips nL - i)) result.
Proof.
  funelim (sum_while nL term i result).
  - match goal with IH : sum_while _ _ _ _ = fold_left _ _ _ |- _ =>
      rewrite IH
    end.
    match goal with Hlt : Qlt (of_nat _) _ |- _ =>
      pose proof (trips_lt _ _ Hlt)
    end.
    by replace (trips nL - i)%nat with (S (trips nL - S i)) by lia.
  - match goal with Hle : Qle _ (of_nat _) |- _ =>
      pose proof (trips_le _ _ Hle)
    end.
    by replace (trips nL - i)%nat with 0%nat by lia.
Qed.

Lemma sum_while_sum_over (nL : Q) (term : nat → float) :
  sum_while nL term 0 0%float = sum_over (trips nL) term.
Proof. rewrite sum_while_seq. unfold sum_over. by rewrite Nat.sub_0_r. Qed.

Lemma fold_left_ext_in {A B} (f g : A → B → A) (l : list B) (a : A) :
  (∀ acc x, x ∈ l → f acc x = g acc x) → fold_left f l a = fold_left g l a.
Proof.
  revert a. induction l as [|x l IH]; intros a Hfg; [done|].
  cbn. rewrite Hfg by apply list_elem_of_here.
  apply IH. intros acc y Hy. apply Hfg. by apply list_elem_of_further.
Qed.

Lemma sum_over_ext (n : nat) (term term' : nat → float) :
  (∀ i, (i < n)%nat → term i = term' i) → sum_over n term = sum_over n term'.
Proof.
  intros H. unfold sum_over. apply fold_left_ext_in.
  intros acc i Hi. apply elem_of_seq in Hi. rewrite H; [done | lia].
Qed.

Lemma array_index_of_nat (q : Q) (k : nat) :
  (q == of_nat k)%Q → array_index q = Some k.
Proof.
  intros E. unfold array_index. rewrite (Qred_complete _ _ E).
  unfold of_nat. rewrite Qcanon.Qred_identity by (cbn; apply Z.gcd_1_r). cbn.
  rewrite decide_True by (split; [done | lia]). by rewrite Nat2Z.id.
Qed.

Lemma array_at_of_nat (p : jsarray) (q : Q) (k : nat) :
  (q == of_nat k)%Q → array_at p q = array_get p k.
Proof. intros E. unfold array_at. by rewrite (array_index_of_nat q k E). Qed.

Lemma trips_of_nat (q : Q) (n : nat) : (q == of_nat n)%Q → trips q = n.
Proof.
  intros E. unfold trips. rewrite (Qceiling_comp _ _ E).
  unfold of_nat. rewrite Qceiling_Z. apply Nat2Z.id.
Qed.

Lemma batch_exact (d n : nat) :
  d ≠ 0%nat → (of_nat (d * n) / of_nat d == of_nat n)%Q.
Proof.
  intros Hd. unfold of_nat. rewrite Nat2Z.inj_mul, inject_Z_mult.
  field. intros E. apply Hd.
  unfold Qeq in E. cbn in E. lia.
Qed.

Lemma batch_index (d n i k : nat) :
  d ≠ 0%nat →
  (of_nat i + of_nat (d * n) / of_nat d * of_nat k == of_nat (i + k * n))%Q.
Proof.
  intros Hd. rewrite (batch_exact d n Hd). unfold of_nat.
  rewrite Nat2Z.inj_add, Nat2Z.inj_mul, inject_Z_plus, inject_Z_mult. ring.
Qed.

Lemma batch_index1 (d n i : nat) :
  d ≠ 0%nat → (of_nat i + of_nat (d * n) / of_nat d == of_nat (i + n))%Q.
Proof.
  intros Hd. rewrite (batch_exact d n Hd). unfold of_nat.
  by rewrite Nat2Z.inj_add, inject_Z_plus.
Qed.

Section ShapeClaims.
Context `{!Collaborators}.

Local Open Scope Q_scope.

(** C7. For every parameter vector [p] and abscissa [t], each model is the
    sum, over the [i] below [nL = p.length / 3] (or [/ 4]) taken in order
    from 0, of the evaluator of its shape on the position [p[i]], the height
    [p[i + nL]], the width [p[i + nL * 2]] (and the mixing fraction
    [p[i + nL * 3]]); when the length is [3 * n] (or [4 * n]) these are the
    [n] peaks, read at [i], [i + n], [i + 2 * n] (and [i + 3 * n]).  The
    model is a function of [p] and [t] alone. *)
Theorem shape_models_sum (p : jsarray) (t : float) :
  (let nL := of_nat (array_length p) / 3 in
   sumOfGaussians p t
   = sum_over (trips nL)
       (fun i =>
          gaussianFct (array_at p (of_nat i)) (array_at p (of_nat i + nL))
            (array_at p (of_nat i + nL * 2)) t)
   ∧ sumOfLorentzians p t
     = sum_over (trips nL)
         (fun i =>
            lorentzianFct
              {[ "x" := array_at p (of_nat i);
                 "y" := array_at p (of_nat i + nL);
                 "width" := array_at p (of_nat i + nL * 2) ]} t))
  ∧ (let nL := of_nat (array_length p) / 4 in
     sumOfGaussianLorentzians p t
     = sum_over (trips nL)
         (fun i =>
            pseudovoigtFct
              {[ "x" := array_at p (of_nat i);
                 "y" := array_at p (of_nat i + nL);
                 "width" := array_at p (of_nat i + nL * 2);
                 "mu" := array_at p (of_nat i + nL * 3) ]} t))
  ∧ (∀ n, array_length p = (3 * n)%nat →
       sumOfGaussians p t
       = sum_over n
           (fun i =>
              gaussianFct (array_get p i) (array_get p (i + n))
                (array_get p (i + 2 * n)) t)
       ∧ sumOfLorentzians p t
         = sum_over n
             (fun i =>
                lorentzianFct
                  {[ "x" := array_get p i;
                     "y" := array_get p (i + n);
                     "width" := array_get p (i + 2 * n) ]} t))
  ∧ (∀ n, array_length p = (4 * n)%nat →
       sumOfGaussianLorentzians p t
       = sum_over n
           (fun i =>
              pseudovoigtFct
                {[ "x" := array_get p i;
                   "y" := array_get p (i + n);
                   "width" := array_get p (i + 2 * n);
                   "mu" := array_get p (i + 3 * n) ]} t)).
Proof.
  split; [|split; [|split]].
  - cbn zeta. unfold sumOfGaussians, sumOfLorentzians.
    by rewrite !sum_while_sum_over.
  - cbn zeta. unfold sumOfGaussianLorentzians. by rewrite sum_while_sum_over.
  - intros n Hn. unfold sumOfGaussians, sumOfLorentzians.
    rewrite !sum_while_sum_over, Hn.
    change 3 with (of_nat 3). change 2 with (of_nat 2).
    rewrite (trips_of_nat _ n (batch_exact 3 n ltac:(done))).
    split; apply sum_over_ext; intros i Hi;
      rewrite (array_at_of_nat p (of_nat i) i) by reflexivity;
      rewrite (array_at_of_nat p _ (i + n)) by (by apply batch_index1);
      rewrite (array_at_of_nat p _ (i + 2 * n)) by (by apply batch_index);
      done.
  - intros n Hn. unfold sumOfGaussianLorentzians.
    rewrite !sum_while_sum_over, Hn.
    change 4 with (of_nat 4). change 3 with (of_nat 3).
    change 2 with (of_nat 2).
    rewrite (trips_of_nat _ n (batch_exact 4 n ltac:(done))).
    apply sum_over_ext; intros i Hi.
    rewrite (array_at_of_nat p (of_nat i) i) by reflexivity.
    rewrite (array_at_of_nat p _ (i + n)) by (by apply batch_index1).
    rewrite (array_at_of_nat p _ (i + 2 * n)) by (by apply batch_index).
    rewrite (array_at_of_nat p _ (i + 3 * n)) by (by apply batch_index).
    done.
Qed.

End ShapeClaims.

Lemma shape_models_sum_witness :
  @sumOfGaussians height_world (Float64Array [0; 1; 1; 2; 3; 4]%float) 0%float
  = 3%float.
Proof.
  destruct (@shape_models_sum height_world
              (Float64Array [0; 1; 1; 2; 3; 4]%float) 0%float)
    as (_ & _ & H & _).
  destruct (H 2%nat) as [-> _]; [reflexivity|].
  vm_compute. reflexivity.
Defined.

(** ** C6: overrides given as functions *)

(** C6. For every list of peaks and every index [i] in it, the resolver
    [parameters.x.max[i]] that the input builder returns, called on a peak
    that has no upper position bound of its own, calls a function-valued
    option on that peak and gives what the function returns, and gives
    [x + width * 2] when there is no option.  So, given the peak
    [{ x: 0, y: 1, width: 2 }] and the option
    [optimization.parameters.x.max = peak => peak.x + peak.width * 0.1],
    [parameters.x.max[0](peaks[0])] is exactly 0.2, and 4 without the
    option. *)
Theorem function_override_resolved :
  (∀ (peaks : list obj) (i : nat) (body : lambda) (peak : obj),
     (i < length peaks)%nat →
     get peak "xMax" = Undefined →
     (λ max, max peak) <$> parameters_x_max peaks (Func body) !! i
     = Some (eval_lambda body peak)
     ∧ (λ max, max peak) <$> parameters_x_max peaks Undefined !! i
       = Some (js_add (get peak "x") (js_mul (get peak "width") (Num 2))))
  ∧ (λ max, max test_peak) <$> parameters_x_max [test_peak] (Func test_max)
                                 !! 0%nat
    = Some (Num 0.2)
  ∧ (λ max, max test_peak) <$> parameters_x_max [test_peak] Undefined !! 0%nat
    = Some (Num 4).
Proof.
  assert (Hgeneral : ∀ (peaks : list obj) (i : nat) (body : lambda)
            (peak : obj),
            (i < length peaks)%nat →
            get peak "xMax" = Undefined →
            (λ max, max peak) <$> parameters_x_max peaks (Func body) !! i
            = Some (eval_lambda body peak)
            ∧ (λ max, max peak) <$> parameters_x_max peaks Undefined !! i
              = Some (js_add (get peak "x")
                        (js_mul (get peak "width") (Num 2)))).
  { intros peaks i body peak Hi Hown.
    destruct (lookup_lt_is_Some_2 peaks i Hi) as [p Hp].
    unfold parameters_x_max. rewrite !list_lookup_fmap, Hp. cbn.
    unfold resolve. by rewrite Hown. }
  split; [exact Hgeneral|].
  destruct (Hgeneral [test_peak] 0%nat test_max test_peak) as [Hf Hd];
    [cbn; lia | reflexivity |].
  split; [exact Hf | exact Hd].
Qed.

Lemma function_override_resolved_witness :
  (λ max, max test_peak) <$> parameters_x_max [test_peak] (Func test_max)
                               !! 0%nat
  = Some (Num 0.2).
Proof.
  exact (proj1 (proj1 function_override_resolved [test_peak] 0%nat test_max
                  test_peak (le_n 1) eq_refl)).
Defined.

(** * Further properties *)

(** ** The errors of [getValue] *)

(** X1. [getValue] (lines 98-168) throws exactly when the parameter index or
    the state is outside 0..3, and an unknown state is reported as such
    whatever the index. *)
Theorem getValue_throws_iff (parameterIndex : Z) (peak : obj) (state : Z)
    (options : obj) :
  ((∃ msg, getValue parameterIndex peak state options = Throw msg)
   ↔ ¬ (0 ≤ parameterIndex ≤ 3 ∧ 0 ≤ state ≤ 3))
  ∧ (¬ 0 ≤ state ≤ 3 →
     getValue parameterIndex peak state options
     = Throw "the state is not supported").
Proof.
  assert (Hstate : ¬ 0 ≤ state ≤ 3 →
    getValue parameterIndex peak state options
    = Throw "the state is not supported").
  { intros Hout. unfold getValue.
    rewrite (decide_False (P := state = STATE_INIT))
      by (unfold STATE_INIT; lia).
    rewrite (decide_False (P := state = STATE_GRADIENT_DIFFERENCE))
      by (unfold STATE_GRADIENT_DIFFERENCE; lia).
    rewrite (decide_False (P := state = STATE_MIN)) by (unfold STATE_MIN; lia).
    rewrite (decide_False (P := state = STATE_MAX)) by (unfold STATE_MAX; lia).
    done. }
  split; [|done]. split.
  - intros [msg E] [Hi Hs].
    destruct (getValue_total (Z.to_nat parameterIndex) peak state options)
      as [v Ev]; [lia | |].
    + unfold states, STATE_INIT, STATE_MIN, STATE_MAX,
        STATE_GRADIENT_DIFFERENCE.
      assert (state = 0 ∨ state = 1 ∨ state = 2 ∨ state = 3)
        as [-> | [-> | [-> | ->]]] by lia;
        repeat first [apply list_elem_of_here | apply list_elem_of_further].
    + rewrite Z2Nat.id in Ev by lia. congruence.
  - intros Hout.
    destruct (decide (0 ≤ state ≤ 3)) as [Hs|Hs]; [|eauto].
    assert (Hi : ¬ 0 ≤ parameterIndex ≤ 3) by tauto.
    unfold getValue.
    rewrite !(decide_False (P := parameterIndex = X)) by (unfold X; lia).
    rewrite !(decide_False (P := parameterIndex = Y)) by (unfold Y; lia).
    rewrite !(decide_False (P := parameterIndex = WIDTH))
      by (unfold WIDTH; lia).
    rewrite !(decide_False (P := parameterIndex = MU)) by (unfold MU; lia).
    repeat case_decide; eauto.
Qed.

(** ** The vectors of the older [optimize] *)

Section LegacyVectors.
Context `{!Collaborators}.

(** X2. For every peak list and every supported shape, the older
    [optimize] (lines 229-249) hands the solver three vectors (initial values,
    lower bounds, upper bounds) that hold, at index [i + s * nbPeaks], what the
    older [getValue] gives for parameter [s] of the copy of peak [i] with the
    sampling step [|x[0] - x[1]|]; the gradient steps of the configuration
    are left as [selectMethod] gave them. *)
Theorem legacy_vectors_laid_out (data : Data) (peaks : list loc)
    (options : Options) (st : state) (kind : value) (maxY : float)
    (nb : nat) f algorithm oo :
  getKind (default (Some "gaussian"%string) (shape options)) = Ok kind →
  select_shape kind = Ok (nb, f) →
  getMaxValue (data_y data) = Ok maxY →
  selectMethod (default default_optimization (optimization options))
  = Ok (algorithm, oo) →
  ∃ c0,
    solver_log (Legacy.optimize data peaks options st).2
    = solver_log st ++ [c0]
    ∧ legacy_layout (LegacyRun.delta (data_x data)) (copies st peaks) nb
        STATE_INIT (initialValues (call_options c0))
    ∧ legacy_layout (LegacyRun.delta (data_x data)) (copies st peaks) nb
        STATE_MIN (minValues (call_options c0))
    ∧ legacy_layout (LegacyRun.delta (data_x data)) (copies st peaks) nb
        STATE_MAX (maxValues (call_options c0))
    ∧ gradientDifference (call_options c0) = gradientDifference oo.
Proof.
  intros Hk Hs Hmax Hm.
  destruct (legacy_optimize_decodes data peaks options st kind maxY nb f
              algorithm oo Hk Hs Hmax Hm)
    as (c0 & Hlog & Hinit & Hmin & Hmaxv & Hgrad & _).
  exists c0. repeat (split; [done|]). exact Hgrad.
Qed.

End LegacyVectors.

Lemma legacy_vectors_laid_out_witness :
  ∃ c0,
    solver_log (@Legacy.optimize identity_world test_data [5%nat] pseudovoigt
                  test_state).2 = solver_log test_state ++ [c0]
    ∧ gradientDifference (call_options c0) = None.
Proof.
  edestruct (@legacy_vectors_laid_out identity_world test_data [5%nat]
               pseudovoigt test_state)
    as (c0 & Hlog & _ & _ & _ & Hgrad);
    [reflexivity | reflexivity | reflexivity | reflexivity |].
  exists c0. split; [exact Hlog | exact Hgrad].
Defined.

(** X3. With a solver that returns its initial values, the older [optimize]
    gives each peak back with [x] and [width] as the JSON copy and the vector
    hold them (a finite number exactly, [-0] as 0; NaN, an infinity and
    [null] as 0; an absent field as NaN), but with the height so held
    multiplied by [maxY] (the initial height is not divided by it, line 275,
    and the decoding multiplies, line 254) and, for a pseudo-Voigt shape, with
    the mixing fraction 0.5 whatever the peak had (line 286). *)
Theorem legacy_identity_round_trip `{!Collaborators} (data : Data)
    (peaks : list loc) (options : Options) (st : state) (kind : value)
    (maxY : float) (nb : nat) f algorithm oo :
  getKind (default (Some "gaussian"%string) (shape options)) = Ok kind →
  select_shape kind = Ok (nb, f) →
  getMaxValue (data_y data) = Ok maxY →
  selectMethod (default default_optimization (optimization options))
  = Ok (algorithm, oo) →
  ∃ c0 cells,
    solver_log (Legacy.optimize data peaks options st).2
    = solver_log st ++ [c0]
    ∧ initialValues (call_options c0) = Some cells
    ∧ ∀ pFit, algorithm c0 = Ok pFit →
        parameterValues pFit = Float64Array cells →
        ∃ r, (Legacy.optimize data peaks options st).1 = Ok r
             ∧ length (result_peaks r) = length peaks
             ∧ ∀ i l l', peaks !! i = Some l →
                 result_peaks r !! i = Some l' →
                 legacy_reproduces nb maxY (deref (heap st) l)
                   (deref (heap (Legacy.optimize data peaks options st).2) l').
Proof.
  intros Hk Hs Hmax Hm.
  destruct (legacy_optimize_decodes data peaks options st kind maxY nb f
              algorithm oo Hk Hs Hmax Hm)
    as (c0 & Hlog & Hinit & _ & _ & _ & Hdec).
  destruct Hinit as (cells & Hcells & Hlen & Hrows).
  exists c0, cells. split; [done|]. split; [done|]. intros pFit Ea Hpv.
  apply select_shape_nbParams in Hs.
  assert (Hn : length (copies st peaks) = length peaks)
    by (unfold copies; by rewrite length_fmap).
  specialize (Hdec pFit Ea). rewrite Hpv in Hdec. cbn in Hdec.
  rewrite Hlen, Hn in Hdec. specialize (Hdec (le_n _)).
  destruct Hdec as (r & Er & Hr & Hfields).
  exists r. split; [done|]. split; [done|].
  intros i l l' Hl Hl'.
  assert (Hi : copies st peaks !! i = Some (json_obj (deref (heap st) l)))
    by (unfold copies; by rewrite list_lookup_fmap, Hl).
  assert (Hfield : ∀ s, (s < nb)%nat →
    get (deref (heap (Legacy.optimize data peaks options st).2) l') (key_at s)
    = if decide (s = 1%nat)
      then Num (to_number
                  (Legacy.getValue (Z.of_nat s) (json_obj (deref (heap st) l))
                     STATE_INIT (LegacyRun.delta (data_x data))) * maxY)%float
      else Num (to_number
                  (Legacy.getValue (Z.of_nat s) (json_obj (deref (heap st) l))
                     STATE_INIT (LegacyRun.delta (data_x data))))).
  { intros s Hs'. rewrite (Hfields i l' s Hl' Hs').
    pose proof (Hrows i s _ Hi Hs') as Hv. rewrite Hn in Hv.
    case_decide as E1.
    - subst s. rewrite Nat.mul_1_l in Hv. cbn. by rewrite Hv.
    - cbn. by rewrite Hv. }
  split; [|split; [|split]].
  - pose proof (Hfield 0%nat ltac:(lia)) as Hout.
    change (key_at 0) with "x"%string in Hout. rewrite Hout.
    change (Num (to_number (get (json_obj (deref (heap st) l)) "x"))
            = Num (through_copy (get (deref (heap st) l) "x"))).
    by rewrite to_number_copy.
  - pose proof (Hfield 1%nat ltac:(lia)) as Hout.
    change (key_at 1) with "y"%string in Hout. rewrite Hout.
    change (Num (to_number (get (json_obj (deref (heap st) l)) "y") * maxY)
            = Num (through_copy (get (deref (heap st) l) "y") * maxY)).
    by rewrite to_number_copy.
  - pose proof (Hfield 2%nat ltac:(lia)) as Hout.
    change (key_at 2) with "width"%string in Hout. rewrite Hout.
    change (Num (to_number (get (json_obj (deref (heap st) l)) "width"))
            = Num (through_copy (get (deref (heap st) l) "width"))).
    by rewrite to_number_copy.
  - intros ->. pose proof (Hfield 3%nat ltac:(lia)) as Hout.
    change (key_at 3) with "mu"%string in Hout. by rewrite Hout.
Qed.

Lemma legacy_identity_round_trip_witness :
  ∃ r l',
    (@Legacy.optimize identity_world data49 [5%nat] no_options test_state).1
    = Ok r
    ∧ result_peaks r !! 0%nat = Some l'
    ∧ get (deref (heap (@Legacy.optimize identity_world data49 [5%nat]
                          no_options test_state).2) l') "x" = Num 0
    ∧ get (deref (heap (@Legacy.optimize identity_world data49 [5%nat]
                          no_options test_state).2) l') "y" = Num 49.
Proof.
  edestruct (@legacy_identity_round_trip identity_world data49 [5%nat]
               no_options test_state) with (algorithm := identity_solver)
    as (c0 & cells & _ & Hcells & Hround);
    [reflexivity | reflexivity | reflexivity | reflexivity |].
  assert (Hfit : identity_solver c0
                 = Ok {| parameterValues := Float64Array cells;
                         parameterError := Num 0;
                         iterations := Num 0 |})
    by (unfold identity_solver; by rewrite Hcells).
  destruct (Hround _ Hfit eq_refl) as (r & Hr & Hlen & Hrep).
  destruct (lookup_lt_is_Some_2 (result_peaks r) 0%nat) as [l' Hl'];
    [rewrite Hlen; cbn; lia|].
  exists r, l'. split; [exact Hr|]. split; [exact Hl'|].
  destruct (Hrep 0%nat 5%nat l' eq_refl Hl') as (Hx & Hy & _).
  split; [exact Hx | exact Hy].
Defined.

(** On data whose maximum is 49 the height 1 comes back as 49. *)
Lemma legacy_height_scaled :
  let run := @Legacy.optimize identity_world data49 [5%nat] no_options
               test_state in
  (λ l, get (deref (heap run.2) l) "y")
  <$> from_option result_peaks [] (match run.1 with Ok r => Some r | _ => None end)
  = [Num 49].
Proof. vm_compute. reflexivity. Qed.

(** ** What a result is made of *)

Section Results.
Context `{!Collaborators}.

(** X4. When either revision of [optimize] returns, the result has as many
    peaks as were given, all of them distinct objects, the solver that
    [selectMethod] gave for the method of the options was called exactly once
    and returned, and the [error] and [iterations] of the result are the
    [parameterError] and [iterations] it returned (lines 85-86 and
    251-252). *)
Theorem result_of_solver (data : Data) (peaks : list loc) (options : Options)
    (st : state) :
  (∀ r, (optimize data peaks options st).1 = Ok r →
     length (result_peaks r) = length peaks
     ∧ NoDup (result_peaks r)
     ∧ ∃ algorithm oo c0 pFit,
         selectMethod (default default_optimization (optimization options))
         = Ok (algorithm, oo)
         ∧ solver_log (optimize data peaks options st).2 = solver_log st ++ [c0]
         ∧ algorithm c0 = Ok pFit
         ∧ result_error r = parameterError pFit
         ∧ result_iterations r = iterations pFit)
  ∧ (∀ r, (Legacy.optimize data peaks options st).1 = Ok r →
       length (result_peaks r) = length peaks
       ∧ NoDup (result_peaks r)
       ∧ ∃ algorithm oo c0 pFit,
           selectMethod (default default_optimization (optimization options))
           = Ok (algorithm, oo)
           ∧ solver_log (Legacy.optimize data peaks options st).2
             = solver_log st ++ [c0]
           ∧ algorithm c0 = Ok pFit
           ∧ result_error r = parameterError pFit
           ∧ result_iterations r = iterations pFit).
Proof.
  split; intros r Hr.
  - destruct (optimize_ok_inv data peaks options st r Hr)
      as (c & st1 & c0 & pFit & pv' & Hc & Hlen & Hnd & _ & Hlog
          & (algorithm & oo & Hm & Ea) & He & Hi & Ed).
    split; [done|]. split; [done|]. exists algorithm, oo, c0, pFit.
    destruct (checkInput_inv _ _ _ Hc)
      as (kind & _ & _ & Hs & _ & _ & Hopt & _).
    rewrite Hopt in Hm. split; [done|].
    apply select_shape_nbParams in Hs.
    destruct (decode_spec (result_peaks r) (checked_nbParams c)
      (checked_maxY c) (parameterValues pFit) (called st1 c0))
      as (pv2 & st3 & Ed' & Hlog3 & _); [done | lia |].
    rewrite Ed in Ed'. injection Ed' as _ <-.
    split; [by rewrite Hlog3; cbn; rewrite Hlog | done].
  - destruct (legacy_optimize_ok_inv data peaks options st r Hr)
      as (kind & maxY & nb & f & st1 & c0 & pFit & pv' & _ & Hs & _ & Hlen
          & Hnd & _ & Hlog & (algorithm & oo & Hm & Ea) & He & Hi & Ed).
    split; [done|]. split; [done|]. exists algorithm, oo, c0, pFit.
    split; [done|].
    apply select_shape_nbParams in Hs.
    destruct (decode_spec (result_peaks r) nb maxY (parameterValues pFit)
      (called st1 c0)) as (pv2 & st3 & Ed' & Hlog3 & _); [done | lia |].
    rewrite Ed in Ed'. injection Ed' as _ <-.
    split; [by rewrite Hlog3; cbn; rewrite Hlog | done].
Qed.

(** X5. When either revision of [optimize] returns, every field of a
    returned peak that the decoding does not write (any name other than the
    first [nbParams] of [x], [y], [width], [mu]: an [id], a gradient step,
    and [mu] itself for a Gaussian or Lorentzian shape) holds what the JSON
    copy of the caller's peak holds. *)
Theorem other_fields_copied (data : Data) (peaks : list loc)
    (options : Options) (st : state) (kind : value) (nb : nat) f
    (key : string) :
  getKind (default (Some "gaussian"%string) (shape options)) = Ok kind →
  select_shape kind = Ok (nb, f) →
  not_decoded nb key →
  (∀ r i l l', (optimize data peaks options st).1 = Ok r →
     peaks !! i = Some l → result_peaks r !! i = Some l' →
     get (deref (heap (optimize data peaks options st).2) l') key
     = get (json_obj (deref (heap st) l)) key)
  ∧ (∀ r i l l', (Legacy.optimize data peaks options st).1 = Ok r →
       peaks !! i = Some l → result_peaks r !! i = Some l' →
       get (deref (heap (Legacy.optimize data peaks options st).2) l') key
       = get (json_obj (deref (heap st) l)) key).
Proof.
  intros Hk Hs Hkey. split; intros r i l l' Hr Hl Hl'.
  - destruct (optimize_ok_inv data peaks options st r Hr)
      as (c & st1 & c0 & pFit & pv' & Hc & _ & _ & Hnew & _ & _ & _ & _ & Ed).
    destruct (checkInput_inv _ _ _ Hc) as (kind' & Hk' & _ & Hs' & _).
    rewrite Hk in Hk'. injection Hk' as <-.
    rewrite Hs in Hs'. injection Hs' as Hnb _.
    destruct (decode_keeps (result_peaks r) (checked_nbParams c)
      (checked_maxY c) (parameterValues pFit) (called st1 c0))
      as (pv2 & st3 & Ed' & Hkeep).
    rewrite Ed in Ed'. injection Ed' as _ <-.
    rewrite (Hkeep l' key) by (by rewrite <- Hnb).
    unfold deref at 1. cbn. rewrite (Hnew i l' Hl').
    unfold copies. by rewrite list_lookup_fmap, Hl.
  - destruct (legacy_optimize_ok_inv data peaks options st r Hr)
      as (kind' & maxY & nb' & f' & st1 & c0 & pFit & pv' & Hk' & Hs' & _ & _
          & _ & Hnew & _ & _ & _ & _ & Ed).
    rewrite Hk in Hk'. injection Hk' as <-.
    rewrite Hs in Hs'. injection Hs' as <- _.
    destruct (decode_keeps (result_peaks r) nb maxY (parameterValues pFit)
      (called st1 c0)) as (pv2 & st3 & Ed' & Hkeep).
    rewrite Ed in Ed'. injection Ed' as _ <-.
    rewrite (Hkeep l' key) by done.
    unfold deref at 1. cbn. rewrite (Hnew i l' Hl').
    unfold copies. by rewrite list_lookup_fmap, Hl.
Qed.

End Results.

Lemma result_of_solver_witness :
  ∃ r,
    (@optimize identity_world test_data [5%nat; 5%nat] no_options
       test_state).1 = Ok r
    ∧ length (result_peaks r) = 2%nat
    ∧ NoDup (result_peaks r).
Proof.
  destruct (@result_of_solver identity_world test_data [5%nat; 5%nat]
              no_options test_state) as (Hnew & _).
  assert (∃ r, (@optimize identity_world test_data [5%nat; 5%nat] no_options
                  test_state).1 = Ok r) as [r Hr]
    by (eexists; vm_compute; reflexivity).
  exists r. destruct (Hnew r Hr) as (Hlen & Hnd & _).
  split; [exact Hr|]. split; [exact Hlen | exact Hnd].
Defined.

Lemma other_fields_copied_witness :
  (∀ r i l l',
     (@optimize identity_world test_data [5%nat] no_options tagged_state).1
     = Ok r →
     [5%nat] !! i = Some l → result_peaks r !! i = Some l' →
     get (deref
            (heap (@optimize identity_world test_data [5%nat] no_options
                     tagged_state).2) l') "id"
     = get (json_obj (deref (heap tagged_state) l)) "id")
  ∧ (∀ r i l l',
       (@Legacy.optimize identity_world test_data [5%nat] no_options
          tagged_state).1 = Ok r →
       [5%nat] !! i = Some l → result_peaks r !! i = Some l' →
       get (deref
              (heap (@Legacy.optimize identity_world test_data [5%nat]
                       no_options tagged_state).2) l') "id"
       = get (json_obj (deref (heap tagged_state) l)) "id").
Proof.
  eapply (@other_fields_copied identity_world test_data [5%nat] no_options
            tagged_state (Num 1) 3%nat); [reflexivity | reflexivity |].
  intros s Hs. destruct s as [|[|[|s]]]; [done | done | done | lia].
Defined.

(** ** Edges of a run *)

Section Edges.
Context `{!Collaborators}.



(** X8. A field [x] or [width] of a peak that is NaN or infinite reaches
    the initial vector as 0: the JSON copy (line 54) writes it [null], and
    storing [null] in the vector gives 0 (lines 64, 104 and 108). *)
Theorem non_finite_field_becomes_zero (data : Data) (peaks : list loc)
    (options : Options) (st : state) (c : checked) algorithm oo
    (i s : nat) (key : string) (l : loc) (n : float) :
  checkInput data options = Ok c →
  selectMethod (checked_optimization c) = Ok (algorithm, oo) →
  (s = 0%nat ∧ key = "x"%string) ∨ (s = 2%nat ∧ key = "width"%string) →
  peaks !! i = Some l →
  get (deref (heap st) l) key = Num n →
  is_finite n = false →
  ∃ c0 cells,
    solver_log (optimize data peaks options st).2 = solver_log st ++ [c0]
    ∧ initialValues (call_options c0) = Some cells
    ∧ cells !! (i + s * length peaks)%nat = Some 0%float.
Proof.
  intros Hc Hm Hkey Hl Hfield Hn.
  destruct (optimize_calls data peaks options st c algorithm oo Hc Hm)
    as (c0 & Hlog & (Hinit & _) & _).
  destruct Hinit as (cells & Hcells & _ & Hrows).
  exists c0, cells. split; [done|]. split; [done|].
  assert (Hi : copies st peaks !! i = Some (json_obj (deref (heap st) l)))
    by (unfold copies; by rewrite list_lookup_fmap, Hl).
  destruct (checkInput_inv _ _ _ Hc) as (kind & _ & _ & Hs & _).
  apply select_shape_nbParams in Hs.
  assert (Hcopy : get (json_obj (deref (heap st) l)) key = Null).
  { unfold get, json_obj in *. rewrite lookup_omap.
    destruct (deref (heap st) l !! key) as [v|]; cbn in Hfield; [|done].
    subst v. cbn. by rewrite Hn. }
  destruct (Hrows i s _ Hi) as (v & Ev & Hv); [destruct Hkey as [[-> _]|[-> _]]; lia|].
  unfold copies in Hv. rewrite length_fmap in Hv. rewrite Hv.
  destruct Hkey as [[-> ->]|[-> ->]];
    unfold getValue in Ev; cbn in Ev; injection Ev as <-; by rewrite Hcopy.
Qed.

End Edges.



Lemma non_finite_field_becomes_zero_witness :
  ∃ c0 cells,
    solver_log (@optimize identity_world test_data [5%nat] no_options
                  nan_state).2 = solver_log nan_state ++ [c0]
    ∧ initialValues (call_options c0) = Some cells
    ∧ cells !! 0%nat = Some 0%float.
Proof.
  refine (@non_finite_field_becomes_zero identity_world test_data [5%nat]
            no_options nan_state _ _ _ 0%nat 0%nat "x" 5%nat nan
            _ _ _ _ _ _);
    [ vm_compute; reflexivity | vm_compute; reflexivity
    | left; split; reflexivity | reflexivity | vm_compute; reflexivity
    | vm_compute; reflexivity ].
Defined.

(** ** Parameter vectors of other lengths *)

Lemma fraction_index (d i len k : nat) :
  d ≠ 0%nat →
  (of_nat i + of_nat len / of_nat d * of_nat k
   == Qmake (Z.of_nat (d * i + k * len)) (Pos.of_nat d))%Q.
Proof.
  intros Hd. rewrite Qmake_Qdiv. unfold of_nat.
  replace (Z.pos (Pos.of_nat d)) with (Z.of_nat d) by lia.
  rewrite Nat2Z.inj_add, !Nat2Z.inj_mul, inject_Z_plus, !inject_Z_mult.
  field. intros E. apply Hd. unfold Qeq in E. cbn in E. lia.
Qed.

Lemma fraction_index1 (d i len : nat) :
  d ≠ 0%nat →
  (of_nat i + of_nat len / of_nat d
   == Qmake (Z.of_nat (d * i + 1 * len)) (Pos.of_nat d))%Q.
Proof.
  intros Hd. rewrite <- (fraction_index d i len 1 Hd).
  unfold of_nat. cbn. ring.
Qed.

Lemma fraction_quotient (d len : nat) :
  d ≠ 0%nat →
  (of_nat len / of_nat d == Qmake (Z.of_nat len) (Pos.of_nat d))%Q.
Proof.
  intros Hd. rewrite Qmake_Qdiv. unfold of_nat.
  by replace (Z.pos (Pos.of_nat d)) with (Z.of_nat d) by lia.
Qed.

Lemma trips_fraction (q : Q) (d n r : nat) :
  (q == Qmake (Z.of_nat (d * n + r)) (Pos.of_nat d))%Q →
  (0 < r < d)%nat → trips q = (n + 1)%nat.
Proof.
  intros E Hr. unfold trips. rewrite (Qceiling_comp _ _ E).
  unfold Qceiling, Qfloor, Qopp. cbn [Qnum Qden].
  replace (Z.pos (Pos.of_nat d)) with (Z.of_nat d) by lia.
  assert (- (- Z.of_nat (d * n + r) / Z.of_nat d) = Z.of_nat n + 1)%Z; [|lia].
  rewrite Nat2Z.inj_add, Nat2Z.inj_mul.
  assert (H : (- (Z.of_nat d * Z.of_nat n + Z.of_nat r)
               = (- Z.of_nat n - 1) * Z.of_nat d
                 + (Z.of_nat d - Z.of_nat r))%Z) by lia.
  rewrite H, Z.div_add_l by lia. rewrite Z.div_small by lia. lia.
Qed.

Lemma Qden_one_divides (z : Z) (d : positive) :
  Qden (Qred (Qmake z d)) = 1%positive → (z mod Z.pos d = 0)%Z.
Proof.
  intros H. pose proof (Qred_correct (Qmake z d)) as E.
  unfold Qeq in E. rewrite H in E. cbn in E.
  rewrite Z.mul_1_r in E. rewrite <- E. apply Z_mod_mult.
Qed.

Lemma array_at_fraction (p : jsarray) (q : Q) (d m : nat) :
  (q == Qmake (Z.of_nat m) (Pos.of_nat d))%Q →
  d ≠ 0%nat → (m mod d ≠ 0)%nat → array_at p q = Undefined.
Proof.
  intros E Hd Hm. unfold array_at, array_index. rewrite (Qred_complete _ _ E).
  rewrite decide_False; [done|]. intros [Hden _].
  apply Qden_one_divides in Hden.
  replace (Z.pos (Pos.of_nat d)) with (Z.of_nat d) in Hden by lia.
  rewrite <- Nat2Z.inj_mod in Hden. lia.
Qed.

Lemma ragged_mod (d i k n r : nat) :
  d ≠ 0%nat →
  ((d * i + k * (d * n + r)) mod d = (k * r) mod d)%nat.
Proof.
  intros Hd.
  replace (d * i + k * (d * n + r))%nat with (k * r + (i + k * n) * d)%nat
    by lia.
  by rewrite Nat.Div0.mod_add.
Qed.

Section OtherLengths.
Context `{!Collaborators}.

(** X9. When the length of [p] is not a multiple of 3, say [3n + r] with
    [r] 1 or 2, [sumOfGaussians] and [sumOfLorentzians] add [n + 1] terms,
    and every term is evaluated on the position [p[i]] with height and width
    undefined: [i + nL] and [i + nL * 2] are not array indexes. *)
Theorem ragged_vector_three (p : jsarray) (t : float) (n r : nat) :
  array_length p = (3 * n + r)%nat → (0 < r < 3)%nat →
  sumOfGaussians p t
  = sum_over (n + 1)
      (fun i => gaussianFct (array_get p i) Undefined Undefined t)
  ∧ sumOfLorentzians p t
    = sum_over (n + 1)
        (fun i =>
           lorentzianFct
             {[ "x" := array_get p i; "y" := Undefined;
                "width" := Undefined ]} t).
Proof.
  intros Hlen Hr.
  assert (Ht : trips (of_nat (array_length p) / 3) = (n + 1)%nat).
  { apply (trips_fraction _ 3 n r); [|done]. rewrite Hlen.
    by apply (fraction_quotient 3). }
  assert (Hx : ∀ i, array_at p (of_nat i) = array_get p i)
    by (intros i; by apply array_at_of_nat).
  assert (Hy : ∀ i, array_at p (of_nat i + of_nat (array_length p) / 3)
                    = Undefined).
  { intros i. apply (array_at_fraction p _ 3 (3 * i + 1 * (3 * n + r)));
      [rewrite Hlen; by apply (fraction_index1 3) | done |].
    rewrite ragged_mod by done. destruct Hr as [Hr1 Hr2].
    destruct r as [|[|[|r]]]; [lia | done | done | lia]. }
  assert (Hw : ∀ i, array_at p (of_nat i + of_nat (array_length p) / 3 * 2)
                    = Undefined).
  { intros i. apply (array_at_fraction p _ 3 (3 * i + 2 * (3 * n + r)));
      [rewrite Hlen; by apply (fraction_index 3 i _ 2) | done |].
    rewrite ragged_mod by done. destruct Hr as [Hr1 Hr2].
    destruct r as [|[|[|r]]]; [lia | done | done | lia]. }
  split.
  - unfold sumOfGaussians. cbn zeta. rewrite sum_while_sum_over, Ht.
    apply sum_over_ext. intros i _. by rewrite Hx, Hy, Hw.
  - unfold sumOfLorentzians. cbn zeta. rewrite sum_while_sum_over, Ht.
    apply sum_over_ext. intros i _. by rewrite Hx, Hy, Hw.
Qed.

(** X10. When the length of [p] is [4n + r] with [r] 1, 2 or 3,
    [sumOfGaussianLorentzians] adds [n + 1] terms, each on the position
    [p[i]] with height and mixing fraction undefined; the width is undefined
    too unless [r] is 2, when [i + nL * 2] is the index [i + 2n + 1]. *)
Theorem ragged_vector_four (p : jsarray) (t : float) (n r : nat) :
  array_length p = (4 * n + r)%nat → (0 < r < 4)%nat →
  sumOfGaussianLorentzians p t
  = sum_over (n + 1)
      (fun i =>
         pseudovoigtFct
           {[ "x" := array_get p i; "y" := Undefined;
              "width" := if decide (r = 2%nat)
                         then array_get p (i + 2 * n + 1) else Undefined;
              "mu" := Undefined ]} t).
Proof.
  intros Hlen Hr.
  assert (Ht : trips (of_nat (array_length p) / 4) = (n + 1)%nat).
  { apply (trips_fraction _ 4 n r); [|done]. rewrite Hlen.
    by apply (fraction_quotient 4). }
  assert (Hx : ∀ i, array_at p (of_nat i) = array_get p i)
    by (intros i; by apply array_at_of_nat).
  assert (Hy : ∀ i, array_at p (of_nat i + of_nat (array_length p) / 4)
                    = Undefined).
  { intros i. apply (array_at_fraction p _ 4 (4 * i + 1 * (4 * n + r)));
      [rewrite Hlen; by apply (fraction_index1 4) | done |].
    rewrite ragged_mod by done. destruct Hr as [Hr1 Hr2].
    destruct r as [|[|[|[|r]]]]; [lia | done | done | done | lia]. }
  assert (Hm : ∀ i, array_at p (of_nat i + of_nat (array_length p) / 4 * 3)
                    = Undefined).
  { intros i. apply (array_at_fraction p _ 4 (4 * i + 3 * (4 * n + r)));
      [rewrite Hlen; by apply (fraction_index 4 i _ 3) | done |].
    rewrite ragged_mod by done. destruct Hr as [Hr1 Hr2].
    destruct r as [|[|[|[|r]]]]; [lia | done | done | done | lia]. }
  assert (Hw : ∀ i, array_at p (of_nat i + of_nat (array_length p) / 4 * 2)
                    = if decide (r = 2%nat)
                      then array_get p (i + 2 * n + 1) else Undefined).
  { intros i. case_decide as Hr2.
    - subst r. apply array_at_of_nat. rewrite Hlen.
      rewrite (fraction_index 4 i _ 2) by done. unfold of_nat, Qeq. cbn.
      lia.
    - apply (array_at_fraction p _ 4 (4 * i + 2 * (4 * n + r)));
        [rewrite Hlen; by apply (fraction_index 4 i _ 2) | done |].
      rewrite ragged_mod by done. destruct Hr as [Hr1 Hr3].
      destruct r as [|[|[|[|r]]]]; [lia | done | done | done | lia]. }
  unfold sumOfGaussianLorentzians. cbn zeta.
  rewrite sum_while_sum_over, Ht.
  apply sum_over_ext. intros i _. by rewrite Hx, Hy, Hw, Hm.
Qed.

End OtherLengths.

Lemma ragged_vector_three_witness :
  @sumOfGaussians identity_world (Float64Array [1; 2; 3; 4]%float) 0%float
  = sum_over (1 + 1)
      (fun i =>
         @gaussianFct identity_world
           (array_get (Float64Array [1; 2; 3; 4]%float) i)
           Undefined Undefined 0%float).
Proof.
  refine (proj1 (@ragged_vector_three identity_world
                   (Float64Array [1; 2; 3; 4]%float) 0%float 1 1 _ _));
    [reflexivity | lia].
Defined.

Lemma ragged_vector_four_witness :
  @sumOfGaussianLorentzians identity_world
    (Float64Array [1; 2; 3; 4; 5; 6]%float) 0%float
  = sum_over (1 + 1)
      (fun i =>
         @pseudovoigtFct identity_world
           {[ "x" := array_get (Float64Array [1; 2; 3; 4; 5; 6]%float) i;
              "y" := Undefined;
              "width" := array_get (Float64Array [1; 2; 3; 4; 5; 6]%float)
                           (i + 2 * 1 + 1);
              "mu" := Undefined ]} 0%float).
Proof.
  exact (@ragged_vector_four identity_world
           (Float64Array [1; 2; 3; 4; 5; 6]%float) 0%float 1 2
           eq_refl (conj (le_S _ _ (le_n _)) (le_S _ _ (le_n _)))).
Defined.

(** ** The initial mixing fraction *)

(** X11. In a pseudo-Voigt run the initial vector holds, at index
    [i + 3 * nbPeaks], the [mu] of peak [i] when that is a finite number other
    than 0, and 0.5 in every other case: [mu] absent, [undefined], [null], a
    function, 0, NaN or infinite (JSON writes the last two [null], and
    [peak.mu || 0.5] of line 110 takes every falsy value for an absent
    one). *)
Theorem initial_mixing_fraction `{!Collaborators} (data : Data)
    (peaks : list loc) (options : Options) (st : state) (c : checked)
    algorithm oo (i : nat) (l : loc) :
  checkInput data options = Ok c →
  selectMethod (checked_optimization c) = Ok (algorithm, oo) →
  checked_nbParams c = 4%nat →
  peaks !! i = Some l →
  ∃ c0 cells,
    solver_log (optimize data peaks options st).2 = solver_log st ++ [c0]
    ∧ initialValues (call_options c0) = Some cells
    ∧ cells !! (i + 3 * length peaks)%nat
      = Some (initial_mu (get (deref (heap st) l) "mu")).
Proof.
  intros Hc Hm Hnb Hl.
  destruct (optimize_calls data peaks options st c algorithm oo Hc Hm)
    as (c0 & Hlog & (Hinit & _) & _).
  destruct Hinit as (cells & Hcells & _ & Hrows).
  exists c0, cells. split; [done|]. split; [done|].
  assert (Hi : copies st peaks !! i = Some (json_obj (deref (heap st) l)))
    by (unfold copies; by rewrite list_lookup_fmap, Hl).
  destruct (Hrows i 3%nat _ Hi) as (v & Ev & Hv); [lia|].
  unfold copies in Hv. rewrite length_fmap in Hv. rewrite Hv.
  unfold getValue in Ev. cbn in Ev. injection Ev as <-. f_equal.
  unfold get, json_obj. rewrite lookup_omap.
  destruct (deref (heap st) l !! "mu"%string) as [[| |n|body]|];
    [done | done | | done | done].
  change (to_number
            (js_or (if is_finite n
                    then Num (if PrimFloat.eqb n 0 then 0%float else n)
                    else Null) (Num 0.5))
          = if is_finite n && negb (PrimFloat.eqb n 0) then n else 0.5%float).
  destruct (is_finite n) eqn:Ef; [|done].
  destruct (PrimFloat.eqb n 0) eqn:Ez; [done|].
  unfold js_or, truthy. rewrite Ez. unfold is_finite in Ef.
  by destruct (PrimFloat.is_nan n).
Qed.

Lemma initial_mixing_fraction_witness :
  ∃ c0 cells,
    solver_log (@optimize identity_world test_data [5%nat] pseudovoigt
                  mixed_state).2 = solver_log mixed_state ++ [c0]
    ∧ initialValues (call_options c0) = Some cells
    ∧ cells !! 3%nat = Some 0.25%float.
Proof.
  refine (@initial_mixing_fraction identity_world test_data [5%nat]
            pseudovoigt mixed_state _ _ _ 0%nat 5%nat _ _ _ _);
    [ vm_compute; reflexivity | vm_compute; reflexivity
    | reflexivity | reflexivity ].
Defined.

(** ** A solver result that is too short *)

Lemma rescaled_typed (n : nat) (maxY : float) (cells : list float) (k : nat) :
  ∃ cells', rescaled n maxY (Float64Array cells) k = Float64Array cells'
            ∧ length cells' = length cells.
Proof.
  induction k as [|k (cells' & E & Hlen)]; [by exists cells|].
  rewrite rescaled_S, E. unfold rescale. cbn.
  eexists. split; [done|]. by rewrite length_insert.
Qed.

Lemma rescaled_beyond (n : nat) (maxY : float) (cells : list float)
    (k j : nat) :
  (length cells ≤ j)%nat →
  array_get (rescaled n maxY (Float64Array cells) k) j = Undefined.
Proof.
  intros Hj. destruct (rescaled_typed n maxY cells k) as (cells' & -> & Hlen).
  cbn. by rewrite lookup_ge_None_2 by lia.
Qed.

Section ShortFit.
Context `{!Collaborators}.

(** X12. Neither revision of [optimize] checks what the solver returns: when
    its [parameterValues] is a [Float64Array] shorter than
    [nbPeaks * nbParams], the run still returns, and every field of a
    returned peak whose index [i + s * nbPeaks] lies beyond the array is
    [undefined], the height included (the product of line 88 or 254 is
    written out of range and lost). *)
Theorem short_fit_leaves_undefined (data : Data) (peaks : list loc)
    (options : Options) (st : state) (kind : value) (maxY : float)
    (nb : nat) f algorithm oo :
  getKind (default (Some "gaussian"%string) (shape options)) = Ok kind →
  select_shape kind = Ok (nb, f) →
  getMaxValue (data_y data) = Ok maxY →
  selectMethod (default default_optimization (optimization options))
  = Ok (algorithm, oo) →
  (∃ c0,
     solver_log (optimize data peaks options st).2 = solver_log st ++ [c0]
     ∧ ∀ pFit cells, algorithm c0 = Ok pFit →
         parameterValues pFit = Float64Array cells →
         ∃ r, (optimize data peaks options st).1 = Ok r
              ∧ length (result_peaks r) = length peaks
              ∧ ∀ i l s, result_peaks r !! i = Some l → (s < nb)%nat →
                  (length cells ≤ i + s * length peaks)%nat →
                  get (deref (heap (optimize data peaks options st).2) l)
                    (key_at s) = Undefined)
  ∧ (∃ c0,
       solver_log (Legacy.optimize data peaks options st).2
       = solver_log st ++ [c0]
       ∧ ∀ pFit cells, algorithm c0 = Ok pFit →
           parameterValues pFit = Float64Array cells →
           ∃ r, (Legacy.optimize data peaks options st).1 = Ok r
                ∧ length (result_peaks r) = length peaks
                ∧ ∀ i l s, result_peaks r !! i = Some l → (s < nb)%nat →
                    (length cells ≤ i + s * length peaks)%nat →
                    get (deref
                           (heap (Legacy.optimize data peaks options st).2) l)
                      (key_at s) = Undefined).
Proof.
  intros Hk Hs Hmax Hm. split.
  - destruct (checkInput data options) as [c|msg] eqn:Hc.
    2:{ unfold checkInput in Hc. rewrite Hk in Hc. cbn in Hc.
        rewrite Hmax in Hc. cbn in Hc. rewrite Hs in Hc. done. }
    destruct (checkInput_inv _ _ _ Hc)
      as (kind' & Hk' & _ & Hs' & _ & _ & Hopt & _).
    rewrite Hk in Hk'. injection Hk' as <-.
    rewrite Hs in Hs'. injection Hs' as Hnb _.
    rewrite <- Hopt in Hm.
    destruct (optimize_run data peaks options st c Hc)
      as (ls & st1 & b & Hlen & Hnd & _ & Hlog & _ & _ & _ & ->).
    rewrite Hm. cbn zeta. exists (the_call c oo b).
    apply select_shape_nbParams in Hs.
    split.
    { destruct (algorithm (the_call c oo b)) as [pFit|msg]; [|by cbn; rewrite Hlog].
      destruct (decode_spec ls (checked_nbParams c) (checked_maxY c)
                  (parameterValues pFit) (called st1 (the_call c oo b)))
        as (pv' & st3 & -> & Hlog3 & _); [done | lia |].
      cbn. by rewrite Hlog3; cbn; rewrite Hlog. }
    intros pFit cells -> Hpv.
    destruct (decode_spec ls (checked_nbParams c) (checked_maxY c)
                (parameterValues pFit) (called st1 (the_call c oo b)))
      as (pv' & st3 & -> & _ & _ & Hget); [done | lia |].
    eexists. split; [done|]. split; [done|]. cbn.
    intros i l s Hl Hlt Hshort. rewrite (Hget i l s Hl) by lia.
    rewrite Hpv. apply rescaled_beyond. by rewrite Hlen.
  - destruct (legacy_optimize_run data peaks options st)
      as (ls & st1 & Hlen & Hnd & _ & Hlog & _ & _ & ->).
    rewrite Hk, Hmax, Hs. unfold LegacyRun.fit_and_decode. rewrite Hm.
    cbn zeta. eexists.
    apply select_shape_nbParams in Hs.
    split.
    { destruct (algorithm _) as [pFit|msg]; [|by cbn; rewrite Hlog].
      destruct (decode_spec ls nb maxY (parameterValues pFit)
                  (called st1 (LegacyRun.the_call data maxY f oo
                     (LegacyRun.fill_vectors (LegacyRun.delta (data_x data))
                        (copies st peaks) nb
                        (new_Float64Array (length ls * nb),
                         new_Float64Array (length ls * nb),
                         new_Float64Array (length ls * nb))))))
        as (pv' & st3 & -> & Hlog3 & _); [done | lia |].
      cbn. by rewrite Hlog3; cbn; rewrite Hlog. }
    intros pFit cells -> Hpv.
    destruct (decode_spec ls nb maxY (parameterValues pFit)
                (called st1 (LegacyRun.the_call data maxY f oo
                   (LegacyRun.fill_vectors (LegacyRun.delta (data_x data))
                      (copies st peaks) nb
                      (new_Float64Array (length ls * nb),
                       new_Float64Array (length ls * nb),
                       new_Float64Array (length ls * nb))))))
      as (pv' & st3 & -> & _ & _ & Hget); [done | lia |].
    eexists. split; [done|]. split; [done|]. cbn.
    intros i l s Hl Hlt Hshort. rewrite (Hget i l s Hl) by lia.
    rewrite Hpv. apply rescaled_beyond. by rewrite Hlen.
Qed.

End ShortFit.

Lemma short_fit_leaves_undefined_witness :
  ∃ r,
    (@optimize short_world test_data [5%nat] no_options test_state).1 = Ok r
    ∧ ∀ i l s, result_peaks r !! i = Some l → (s < 3)%nat →
        get (deref (heap (@optimize short_world test_data [5%nat] no_options
                            test_state).2) l) (key_at s) = Undefined.
Proof.
  edestruct (@short_fit_leaves_undefined short_world test_data [5%nat]
               no_options test_state) as ((c0 & _ & H) & _);
    [reflexivity | reflexivity | reflexivity | reflexivity |].
  destruct (H _ [] eq_refl eq_refl) as (r & Hr & _ & Hf).
  exists r. split; [exact Hr|].
  intros i l s Hl Hs. apply (Hf i l s Hl Hs). cbn. lia.
Defined.

(** ** The first errors of the older [optimize] *)

(** X13. The errors of the collaborators come in the order of the source
    in the older [optimize]: an error of [getKind] (line 204) is thrown as it
    is; and when [getKind] has returned, whatever it returned, a supported
    kind or not, and the maximum of [y] cannot be taken (line 207), the error
    of the maximum is thrown, the kind being looked at only afterwards (lines
    212-227).  In both cases the solver is not called and every object of the
    caller is as it was. *)
Theorem legacy_max_error `{!Collaborators} (data : Data) (peaks : list loc)
    (options : Options) (st : state) :
  (∀ msg,
     getKind (default (Some "gaussian"%string) (shape options)) = Throw msg →
     (Legacy.optimize data peaks options st).1 = Throw msg
     ∧ solver_log (Legacy.optimize data peaks options st).2 = solver_log st
     ∧ ∀ l, l ∈ dom (heap st) →
         heap (Legacy.optimize data peaks options st).2 !! l = heap st !! l)
  ∧ (∀ kind msg,
       getKind (default (Some "gaussian"%string) (shape options)) = Ok kind →
       getMaxValue (data_y data) = Throw msg →
       (Legacy.optimize data peaks options st).1 = Throw msg
       ∧ solver_log (Legacy.optimize data peaks options st).2 = solver_log st
       ∧ ∀ l, l ∈ dom (heap st) →
           heap (Legacy.optimize data peaks options st).2 !! l
           = heap st !! l).
Proof.
  destruct (legacy_optimize_run data peaks options st)
    as (ls & st1 & _ & _ & Hfresh & Hlog & Hframe & _ & ->).
  assert (Hsame : ∀ l, l ∈ dom (heap st) → heap st1 !! l = heap st !! l).
  { intros l Hl. apply Hframe. intros Hin. by apply Hfresh in Hin. }
  split.
  - intros msg Hk. rewrite Hk. cbn. done.
  - intros kind msg Hk Hmax. rewrite Hk, Hmax. cbn. done.
Qed.

Lemma legacy_max_error_witness :
  ((@Legacy.optimize identity_world empty_spectrum [5%nat] triangular
      test_state).1 = Throw "Unknown kind"
   ∧ solver_log (@Legacy.optimize identity_world empty_spectrum [5%nat]
                   triangular test_state).2 = [])
  ∧ ((@Legacy.optimize identity_world empty_spectrum [5%nat] kindless
        test_state).1 = Throw "input must not be empty"
     ∧ solver_log (@Legacy.optimize identity_world empty_spectrum [5%nat]
                     kindless test_state).2 = [])
  ∧ (∃ msg, @select_shape identity_world Undefined = Throw msg).
Proof.
  split; [|split].
  - destruct (@legacy_max_error identity_world empty_spectrum [5%nat]
                triangular test_state) as (Hkind & _).
    destruct (Hkind "Unknown kind"%string eq_refl) as (Hthrow & Hlog & _).
    split; [exact Hthrow | exact Hlog].
  - destruct (@legacy_max_error identity_world empty_spectrum [5%nat]
                kindless test_state) as (_ & Hmax).
    destruct (Hmax Undefined "input must not be empty"%string eq_refl eq_refl)
      as (Hthrow & Hlog & _).
    split; [exact Hthrow | exact Hlog].
  - eexists. reflexivity.
Defined.
